(** * pixi-sdf-batching: the buffer-merging engine of [src/App.js]

    A shallow embedding of the typed-buffer utilities ([mergeTypedArrays],
    [fillTypedArraySequence]), of the batch merge ([createTextAttributes],
    [buildMergedText]) and of its caller ([strings], [updateText]),
    followed by the properties of the specification that concern them and
    by further properties of the code.

    Conventions.
    - A JavaScript Number is a rational ([Q]); the values met here are
      lengths, indices and finite floats.  NaN and the infinities are not
      modelled.
    - An integer-valued loop variable ([position], [sequenceLength],
      [currentLength]) is a [Z]; the 32-bit wrap-around of [<<] is written
      out ([JS.shl]).
    - A call either returns, throws, or is cut off by the fuel that bounds
      its [while] loop ([JS.outcome]). *)

From Stdlib Require Import ZArith QArith Qround List Ascii String Bool Lia.
Import ListNotations.
Local Open Scope Z_scope.

(** ** ECMAScript primitives *)

Module JS.

Inductive Error : Set := RangeError | TypeError.

Inductive outcome (A : Type) : Type :=
| Return (a : A)
| Throw (e : Error)
| OutOfFuel.
Arguments Return {A} a.
Arguments Throw {A} e.
Arguments OutOfFuel {A}.

Definition bind {A B : Type} (c : outcome A) (k : A -> outcome B) : outcome B :=
  match c with
  | Return a => k a
  | Throw e => Throw e
  | OutOfFuel => OutOfFuel
  end.

(** ToInt32 on an integer. *)
Definition ToInt32 (z : Z) : Z := (z + 2 ^ 31) mod 2 ^ 32 - 2 ^ 31.

(** [x << n]: both operands through ToInt32 / ToUint32, the count masked
    to five bits, the result back through ToInt32. *)
Definition shl (x n : Z) : Z := ToInt32 (Z.shiftl (ToInt32 x) (n mod 32)).

(** ToIntegerOrInfinity on a finite number: truncation towards zero. *)
Definition truncate (q : Q) : Z :=
  if Qle_bool 0 q then Qfloor q else Qceiling q.

(** ToUint8, ToUint16, ToUint32. *)
Definition ToUintN (bits : Z) (q : Q) : Q :=
  inject_Z (truncate q mod 2 ^ bits).

(** ToInt8, ToInt16, ToInt32. *)
Definition ToIntN (bits : Z) (q : Q) : Q :=
  inject_Z ((truncate q + 2 ^ (bits - 1)) mod 2 ^ bits - 2 ^ (bits - 1)).

End JS.
Import JS.

Notation "x <- c1 ;; c2" := (JS.bind c1 (fun x => c2))
  (at level 61, c1 at next level, right associativity).

(** ** Typed arrays *)

(** The Number-valued typed array constructors (the BigInt ones and
    Uint8ClampedArray are left out). *)
Inductive ArrayType : Set :=
| Int8Array | Uint8Array | Int16Array | Uint16Array
| Int32Array | Uint32Array | Float32Array | Float64Array.

Definition ArrayType_eqb (a b : ArrayType) : bool :=
  match a, b with
  | Int8Array, Int8Array | Uint8Array, Uint8Array
  | Int16Array, Int16Array | Uint16Array, Uint16Array
  | Int32Array, Int32Array | Uint32Array, Uint32Array
  | Float32Array, Float32Array | Float64Array, Float64Array => true
  | _, _ => false
  end.

Record TypedArray : Type := mkTypedArray {
  constructor : ArrayType;
  elements : list Q
}.

Module TA.
Section WithFround.

(** [Math.fround]: rounding of a Number to the nearest binary32 value.
    The engine never computes with float data, it only stores and copies
    it, so the rounding stays a parameter. *)
Variable fround : Q -> Q.

(** The conversion a store into an array of type [t] applies. *)
Definition convert (t : ArrayType) (v : Q) : Q :=
  match t with
  | Int8Array => ToIntN 8 v
  | Uint8Array => ToUintN 8 v
  | Int16Array => ToIntN 16 v
  | Uint16Array => ToUintN 16 v
  | Int32Array => ToIntN 32 v
  | Uint32Array => ToUintN 32 v
  | Float32Array => fround v
  | Float64Array => v
  end.

(** [a.length] *)
Definition length (a : TypedArray) : Z := Z.of_nat (List.length (elements a)).

(** [new C(length)], [length] already an integer index: zero-filled. *)
Definition make (C : ArrayType) (length : Z) : TypedArray :=
  mkTypedArray C (repeat 0%Q (Z.to_nat length)).

(** [new C(source)] for a plain array of Numbers; [new C(undefined)] is
    the empty array. *)
Definition from (C : ArrayType) (source : option (list Q)) : TypedArray :=
  match source with
  | Some l => mkTypedArray C (map (convert C) l)
  | None => mkTypedArray C []
  end.

(** What [target.set(source, ...)] writes: the source's elements as they
    are when both arrays have the same type, converted otherwise. *)
Definition stored (C : ArrayType) (source : TypedArray) : list Q :=
  if ArrayType_eqb (constructor source) C then elements source
  else map (convert C) (elements source).

(** [target.set(source, offset)] *)
Definition set (target source : TypedArray) (offset : Z) : outcome TypedArray :=
  if (offset <? 0) || (length source + offset >? length target)
  then Throw RangeError
  else Return (mkTypedArray (constructor target)
         (firstn (Z.to_nat offset) (elements target)
          ++ stored (constructor target) source
          ++ skipn (Z.to_nat (offset + length source)) (elements target))).

(** A relative index of [copyWithin], clamped to [0, len]. *)
Definition relative (len i : Z) : Z :=
  if i <? 0 then Z.max (len + i) 0 else Z.min i len.

(** [a.copyWithin(target, start, end)] *)
Definition copyWithin (a : TypedArray) (target start end_ : Z) : TypedArray :=
  let len := length a in
  let to := relative len target in
  let from := relative len start in
  let final := relative len end_ in
  let count := Z.min (final - from) (len - to) in
  if 0 <? count then
    mkTypedArray (constructor a)
      (firstn (Z.to_nat to) (elements a)
       ++ firstn (Z.to_nat count) (skipn (Z.to_nat from) (elements a))
       ++ skipn (Z.to_nat (to + count)) (elements a))
  else a.

End WithFround.
End TA.

(** ** Typed-buffer utilities (App.js, lines 243-277) *)

Section Utilities.

Variable fround : Q -> Q.

(** The second loop of [mergeTypedArrays]: each buffer is written at
    [currentLength]. *)
Fixpoint merge_copy (typedArrays : list TypedArray) (array : TypedArray)
         (currentLength : Z) : outcome TypedArray :=
  match typedArrays with
  | [] => Return array
  | a :: rest =>
      array <- TA.set fround array a currentLength ;;
      merge_copy rest array (currentLength + TA.length a)
  end.

Definition mergeTypedArrays (typedArrays : list TypedArray) : outcome TypedArray :=
  let length := fold_left (fun length a => length + TA.length a) typedArrays 0 in
  match typedArrays with
  | [] => Throw TypeError   (* typedArrays[0] is undefined *)
  | first :: _ =>
      let array := TA.make (constructor first) length in
      merge_copy typedArrays array 0
  end.

(** One pass through the body of the [while] loop. *)
Definition fill_body (length : Z) (st : Z * Z * TypedArray) : Z * Z * TypedArray :=
  let '(position, sequenceLength, typedArray) := st in
  let sequenceLength :=
    if position + sequenceLength >? length then length - position
    else sequenceLength in
  let typedArray := TA.copyWithin typedArray position 0 sequenceLength in
  let position := position + sequenceLength in
  let sequenceLength := shl sequenceLength 1 in
  (position, sequenceLength, typedArray).

Fixpoint fill_while (fuel : nat) (length : Z) (st : Z * Z * TypedArray)
  : outcome TypedArray :=
  let '(position, _, typedArray) := st in
  if position <? length then
    match fuel with
    | O => OutOfFuel
    | S fuel => fill_while fuel length (fill_body length st)
    end
  else Return typedArray.

Definition fillTypedArraySequence (fuel : nat) (typedArray sequence : TypedArray)
  : outcome TypedArray :=
  let length := TA.length typedArray in
  let sequenceLength := TA.length sequence in
  let position := sequenceLength in
  typedArray <- TA.set fround typedArray sequence 0 ;;
  fill_while fuel length (position, sequenceLength, typedArray).

End Utilities.

(** *** The fill loop, pass by pass *)

(** What [fill_body] does to [position] and [sequenceLength]; the array
    plays no part in it. *)
Definition fill_control (length : Z) (c : Z * Z) : Z * Z :=
  let '(position, sequenceLength) := c in
  let sequenceLength :=
    if position + sequenceLength >? length then length - position
    else sequenceLength in
  (position + sequenceLength, shl sequenceLength 1).

(** The loop test holds during the next [k] passes, after which [position]
    and [sequenceLength] are both zero. *)
Fixpoint reaches_standstill (k : nat) (length : Z) (c : Z * Z) : bool :=
  (fst c <? length) &&
  match k with
  | O => (fst c =? 0) && (snd c =? 0)
  | S k => reaches_standstill k length (fill_control length c)
  end.

(** The same, with no pass that truncates [sequenceLength]. *)
Fixpoint reaches_standstill_untruncated (k : nat) (length : Z) (c : Z * Z) : bool :=
  (fst c <? length) && (fst c + snd c <=? length) &&
  match k with
  | O => (fst c =? 0) && (snd c =? 0)
  | S k => reaches_standstill_untruncated k length (fill_control length c)
  end.

(** The state of the [while] loop of [fillTypedArraySequence] after [k]
    passes through its body, for a target of [length] elements that holds
    [typedArray] after the initial [set] of a pattern of [n] elements. *)
Definition fill_state (k : nat) (length n : Z) (typedArray : TypedArray)
  : Z * Z * TypedArray :=
  Nat.iter k (fill_body length) (n, n, typedArray).

Definition position_of (st : Z * Z * TypedArray) : Z := fst (fst st).

(** ** Reference definitions, in the words of the specification *)

(** Naive repetition: element [j] is [pattern[j mod pattern.length]]. *)
Definition cycle (pattern : list Q) (n : nat) : list Q :=
  map (fun j => nth (j mod List.length pattern)%nat pattern 0%Q) (seq 0 n).

(** The naive fill of [typedArray] with [sequence]: the reference
    implementation of the broadcast fill. *)
Definition naiveFill (fround : Q -> Q) (typedArray sequence : TypedArray) : TypedArray :=
  mkTypedArray (constructor typedArray)
    (cycle (TA.stored fround (constructor typedArray) sequence)
           (List.length (elements typedArray))).

(** Concatenation of a non-empty sequence of buffers into a buffer of the
    first one's type. *)
Definition concatenate (fround : Q -> Q) (first : TypedArray) (rest : list TypedArray)
  : TypedArray :=
  mkTypedArray (constructor first)
    (List.concat (map (TA.stored fround (constructor first)) (first :: rest))).

(** Concatenation of a sequence of buffers known not to be empty. *)
Definition concatenate_all (fround : Q -> Q) (typedArrays : list TypedArray) : TypedArray :=
  match typedArrays with
  | [] => mkTypedArray Float64Array []
  | first :: rest => concatenate fround first rest
  end.

(** ** The batch merge (App.js, lines 172-241) *)

(** The object [createTextAttributes] returns. *)
Record TextAttributes : Type := mkTextAttributes {
  positions : TypedArray;
  uvs : TypedArray;
  indices : TypedArray
}.

(** The object [buildMergedText] returns. *)
Record MergedText : Type := mkMergedText {
  mergedPositions : TypedArray;
  mergedUvs : TypedArray;
  mergedIndices : TypedArray;
  mergedOffsets : TypedArray;
  mergedScales : TypedArray
}.

(** The five arrays of typed arrays and the accumulator that the loop of
    [buildMergedText] updates. *)
Record Arrays : Type := mkArrays {
  maxIndex : Q;
  positionsArrays : list TypedArray;
  uvsArrays : list TypedArray;
  indicesArrays : list TypedArray;
  offsetsArrays : list TypedArray;
  scalesArrays : list TypedArray
}.

Section BatchMerge.

Variable fround : Q -> Q.

(** The collaborators that are not part of App.js: the font object, the
    glyph records and layout of layout-bmfont-text, the geometry
    generator of ./FontGeometryGenerator and the index generator of
    quad-indices.  [createLayout font text letterSpacing align] stands for
    [createLayout({font, text, letterSpacing, align}).glyphs], and
    [createIndices clockwise type count] for
    [createIndices([], {clockwise, type, count})], a plain array. *)
Variable font : Type.
Variable glyph : Type.
Variable createLayout : font -> string -> Z -> string -> list glyph.
Variable getPositions : list glyph -> TypedArray.
Variable getUvs : list glyph -> Z -> Z -> bool -> TypedArray.
Variable createIndices : bool -> string -> Z -> list Q.

Definition createTextAttributes (font_ : font) (text : string) : TextAttributes :=
  let glyphs := createLayout font_ text 1 "left" in
  let positions := getPositions glyphs in
  let uvs := getUvs glyphs 512 256 false in
  let indices :=
    TA.from fround Uint16Array
      (Some (createIndices true "uint16" (Z.of_nat (List.length glyphs)))) in
  mkTextAttributes positions uvs indices.

(** [attributeCollection.positions.length / 2] *)
Definition vertexCount (attributeCollection : TextAttributes) : Q :=
  (inject_Z (TA.length (positions attributeCollection)) / 2)%Q.

(** The inner loop, [indices[i] += maxIndex] for every [i]: each element
    is read, added to and stored back into the same array. *)
Definition add_maxIndex (indices : TypedArray) (maxIndex : Q) : TypedArray :=
  mkTypedArray (constructor indices)
    (map (fun x => TA.convert fround (constructor indices) (x + maxIndex)%Q)
         (elements indices)).

(** One pass through the body of the outer loop, for [textArray[i] = text]. *)
Definition build_body (fuel : nat) (font_ : font) (offsets scales : list (list Q))
           (i : nat) (text : string) (st : Arrays) : outcome Arrays :=
  let attributeCollection := createTextAttributes font_ text in
  let vertexCount := vertexCount attributeCollection in
  let indices := add_maxIndex (indices attributeCollection) (maxIndex st) in
  let maxIndex := (maxIndex st + vertexCount)%Q in
  offsetsBuffer <-
    fillTypedArraySequence fround fuel
      (TA.make Float32Array (truncate (vertexCount * 2)%Q))
      (TA.from fround Float32Array (nth_error offsets i)) ;;
  scalesBuffer <-
    fillTypedArraySequence fround fuel
      (TA.make Float32Array (truncate (vertexCount * 2)%Q))
      (TA.from fround Float32Array (nth_error scales i)) ;;
  Return (mkArrays maxIndex
            (positionsArrays st ++ [positions attributeCollection])
            (uvsArrays st ++ [uvs attributeCollection])
            (indicesArrays st ++ [indices])
            (offsetsArrays st ++ [offsetsBuffer])
            (scalesArrays st ++ [scalesBuffer])).

(** The outer loop; [textArray] is what is left of the array from index
    [i] on. *)
Fixpoint build_loop (fuel : nat) (font_ : font) (textArray : list string)
         (offsets scales : list (list Q)) (i : nat) (st : Arrays) : outcome Arrays :=
  match textArray with
  | [] => Return st
  | text :: rest =>
      st <- build_body fuel font_ offsets scales i text st ;;
      build_loop fuel font_ rest offsets scales (S i) st
  end.

Definition buildMergedText (fuel : nat) (font_ : font) (textArray : list string)
           (offsets scales : list (list Q)) : outcome MergedText :=
  st <- build_loop fuel font_ textArray offsets scales 0
          (mkArrays 0 [] [] [] [] []) ;;
  mergedPositions <- mergeTypedArrays fround (positionsArrays st) ;;
  mergedUvs <- mergeTypedArrays fround (uvsArrays st) ;;
  mergedIndices <- mergeTypedArrays fround (indicesArrays st) ;;
  mergedOffsets <- mergeTypedArrays fround (offsetsArrays st) ;;
  mergedScales <- mergeTypedArrays fround (scalesArrays st) ;;
  Return (mkMergedText mergedPositions mergedUvs mergedIndices
                       mergedOffsets mergedScales).

(** *** What the specification says of the batch merge *)

(** [positions.length] of the instance built for [text]. *)
Definition positionsLength (font_ : font) (text : string) : Z :=
  TA.length (positions (createTextAttributes font_ text)).

(** The values of the local index buffer of the instance built for
    [text], as the Uint16Array constructor stores them. *)
Definition localIndices (font_ : font) (text : string) : list Z :=
  map (fun q => truncate q mod 2 ^ 16)
      (createIndices true "uint16"
         (Z.of_nat (List.length (createLayout font_ text 1 "left")))).

Definition totalPositions (font_ : font) (textArray : list string) : Z :=
  fold_right (fun text n => positionsLength font_ text + n) 0 textArray.

(** The vertices of the instances before instance [i] (two coordinates
    to a vertex). *)
Definition priorVertices (font_ : font) (textArray : list string) (i : nat) : Z :=
  totalPositions font_ (firstn i textArray) / 2.

(** Where the indices of instance [i] start in the merged index buffer. *)
Definition indexOffset (font_ : font) (textArray : list string) (i : nat) : nat :=
  List.length (List.concat (map (localIndices font_) (firstn i textArray))).

(** The merged index values: each instance's local indices plus the
    vertices before it, as 16-bit unsigned integers; [before] is the
    length of the position buffers of the instances already done. *)
Fixpoint shiftedIndices (font_ : font) (textArray : list string) (before : Z) : list Z :=
  match textArray with
  | [] => []
  | text :: rest =>
      map (fun k => (k + before / 2) mod 2 ^ 16) (localIndices font_ text)
      ++ shiftedIndices font_ rest (before + positionsLength font_ text)
  end.

(** The pattern [offsets[i]] (or [scales[i]]) as a Float32Array holds it. *)
Definition patternOf (patterns : list (list Q)) (i : nat) : list Q :=
  elements (TA.from fround Float32Array (nth_error patterns i)).

(** A pattern with which a target of [L] elements can be filled. *)
Definition fillable (L : Z) (pattern : option (list Q)) : bool :=
  match pattern with
  | Some p =>
      (1 <=? Z.of_nat (List.length p)) && (Z.of_nat (List.length p) <=? L)
      && (L <=? 2 ^ 31)
  | None => false
  end.

(** Every instance from index [i] on has an offset and a scale with
    which its buffers can be filled (so it has at least one
    coordinate). *)
Fixpoint instances_fillable (font_ : font) (textArray : list string)
         (offsets scales : list (list Q)) (i : nat) : bool :=
  match textArray with
  | [] => true
  | text :: rest =>
      fillable (positionsLength font_ text) (nth_error offsets i)
      && fillable (positionsLength font_ text) (nth_error scales i)
      && instances_fillable font_ rest offsets scales (S i)
  end.

(** The local indices of the instance built for [text] stay below its
    vertex count and reach its last vertex. *)
Definition indexes_to_last_vertex (font_ : font) (text : string) : bool :=
  let L := positionsLength font_ text in
  (L mod 2 =? 0)
  && forallb (fun k => k <? L / 2) (localIndices font_ text)
  && existsb (fun k => k =? L / 2 - 1) (localIndices font_ text).

End BatchMerge.

(** ** A concrete set of collaborators

    Used to run the engine on explicit inputs: every character other than
    a space is a glyph, a glyph is a quad of four vertices (eight
    coordinates, all zero here) and six indices in the order quad-indices
    documents for clockwise quads, and every float is taken to be
    representable in binary32. *)
Module Quads.

Definition fround (q : Q) : Q := q.

Definition font : Type := unit.
Definition glyph : Type := Ascii.ascii.

Definition createLayout (_ : font) (text : string) (_ : Z) (_ : string) : list glyph :=
  filter (fun c => negb (Ascii.eqb c " "%char)) (list_ascii_of_string text).

Definition getPositions (glyphs : list glyph) : TypedArray :=
  TA.make Float32Array (8 * Z.of_nat (List.length glyphs)).

Definition getUvs (glyphs : list glyph) (_ _ : Z) (_ : bool) : TypedArray :=
  TA.make Float32Array (8 * Z.of_nat (List.length glyphs)).

Fixpoint quads (count : nat) (j : Z) (a b c : Z) : list Q :=
  match count with
  | O => []
  | S count =>
      map inject_Z [j; j + 1; j + 2; j + a; j + b; j + c]
      ++ quads count (j + 4) a b c
  end.

Definition createIndices (clockwise : bool) (_ : string) (count : Z) : list Q :=
  if clockwise then quads (Z.to_nat count) 0 0 2 3
  else quads (Z.to_nat count) 0 2 1 3.

Abbreviation buildMergedText :=
  (buildMergedText fround font glyph createLayout getPositions getUvs createIndices).

Abbreviation localIndices :=
  (localIndices font glyph createLayout createIndices).

Abbreviation priorVertices :=
  (priorVertices fround font glyph createLayout getPositions getUvs createIndices).

Abbreviation indexOffset :=
  (indexOffset font glyph createLayout createIndices).

(** A text of 16384 glyphs: 65536 vertices. *)
Definition longText : string := string_of_list_ascii (repeat "a"%char (Z.to_nat 16384)).

(** Two instances, the first of 65536 vertices. *)
Definition longBatch : list string := [longText; "a"%string].

End Quads.

(** A second set, for instances whose vertex count is not a multiple of
    four: every character is one vertex (two coordinates), and the indices
    of an instance of [count] vertices are 0, 1, ..., [count - 1]. *)
Module Points.

Definition fround (q : Q) : Q := q.

Definition font : Type := unit.
Definition glyph : Type := Ascii.ascii.

Definition createLayout (_ : font) (text : string) (_ : Z) (_ : string) : list glyph :=
  list_ascii_of_string text.

Definition getPositions (glyphs : list glyph) : TypedArray :=
  TA.make Float32Array (2 * Z.of_nat (List.length glyphs)).

Definition getUvs (glyphs : list glyph) (_ _ : Z) (_ : bool) : TypedArray :=
  TA.make Float32Array (2 * Z.of_nat (List.length glyphs)).

Definition createIndices (_ : bool) (_ : string) (count : Z) : list Q :=
  map (fun j => inject_Z (Z.of_nat j)) (seq 0 (Z.to_nat count)).

Abbreviation build_body :=
  (build_body fround font glyph createLayout getPositions getUvs createIndices).

Abbreviation buildMergedText :=
  (buildMergedText fround font glyph createLayout getPositions getUvs createIndices).

End Points.

(** ** Explicit inputs of the fill *)

(** Inputs on which [sequenceLength <<= 1] wraps around: a byte array of
    2^31 + 1 elements with a pattern of one byte, and a byte array of
    2^31 + 2 elements with a pattern of two. *)
Definition longBytes : TypedArray := TA.make Uint8Array (2 ^ 31 + 1).
Definition oneByte : TypedArray := mkTypedArray Uint8Array [7%Q].
Definition longerBytes : TypedArray := TA.make Uint8Array (2 ^ 31 + 2).
Definition twoBytes : TypedArray := mkTypedArray Uint8Array [7%Q; 8%Q].

(** An offset pair, and the empty pattern. *)
Definition oneOffset : TypedArray := mkTypedArray Float32Array [10%Q; 20%Q].
Definition noPattern : TypedArray := mkTypedArray Float32Array [].

(** ** The merged offsets and scales *)

Section BatchChannels.

Variable fround : Q -> Q.
Variable font : Type.
Variable glyph : Type.
Variable createLayout : font -> string -> Z -> string -> list glyph.
Variable getPositions : list glyph -> TypedArray.
Variable getUvs : list glyph -> Z -> Z -> bool -> TypedArray.
Variable createIndices : bool -> string -> Z -> list Q.

(** The naive content of the merged offsets (or scales) buffer: for each
    instance from index [i] on, its pattern repeated over the length of
    its position buffer. *)
Fixpoint broadcasts (font_ : font) (textArray : list string)
         (patterns : list (list Q)) (i : nat) : list Q :=
  match textArray with
  | [] => []
  | text :: rest =>
      cycle (patternOf fround patterns i)
            (Z.to_nat (positionsLength fround font glyph createLayout getPositions
                                       getUvs createIndices font_ text))
      ++ broadcasts font_ rest patterns (S i)
  end.

End BatchChannels.

(** ** The caller of the batch merge (App.js, lines 69-77 and 143-170) *)

(** The geometry of the text mesh, as far as App.js touches it: the data
    of its four attribute buffers and of its index buffer, in the order
    [createTextMesh] adds them.  [buffer.update(data)] replaces the data
    of a buffer. *)
Record Geometry : Type := mkGeometry {
  positionBuffer : TypedArray;
  uvBuffer : TypedArray;
  scaleBuffer : TypedArray;
  offsetBuffer : TypedArray;
  indexBuffer : TypedArray
}.

(** The geometry [createTextMesh] creates: every buffer empty. *)
Definition createTextMesh_geometry : Geometry :=
  mkGeometry (mkTypedArray Float32Array []) (mkTypedArray Float32Array [])
             (mkTypedArray Float32Array []) (mkTypedArray Float32Array [])
             (mkTypedArray Uint16Array []).

Section Caller.

Variable fround : Q -> Q.
Variable font : Type.
Variable glyph : Type.
Variable createLayout : font -> string -> Z -> string -> list glyph.
Variable getPositions : list glyph -> TypedArray.
Variable getUvs : list glyph -> Z -> Z -> bool -> TypedArray.
Variable createIndices : bool -> string -> Z -> list Q.

(** [Math.sin] and [Math.cos], and the rounding to binary64 that ends
    every arithmetic operation on Numbers that are not small integers. *)
Variable Math_sin : Q -> Q.
Variable Math_cos : Q -> Q.
Variable double : Q -> Q.

(** [random_hex n] is what [Math.random().toString(16)] evaluates to in
    call [n] of the arrow function of [strings]. *)
Variable random_hex : nat -> string.

(** [s.slice(2, 5)] *)
Definition slice_2_5 (s : string) : string := substring 2 3 s.

Definition strings : list string :=
  map (fun n => slice_2_5 (random_hex n)) (seq 0 100).

(** The body of the inner loop of [updateText]: one push to each of the
    two arrays. *)
Definition push_entry (time : Q) (x y : Z) (st : list (list Q) * list (list Q))
  : list (list Q) * list (list Q) :=
  let '(offsets, scales) := st in
  (offsets ++ [[inject_Z ((x - 5) * 80); inject_Z ((y - 5) * 64)]],
   scales ++ [[double (double (Math_sin (double (time + inject_Z x)) * (1 # 4)) + 1);
               double (double (Math_cos (double (time + inject_Z y)) * (1 # 4)) + 1)]]%Q).

(** The two nested [for] loops, [x] and [y] from 0 to 9. *)
Definition grid (time : Q) : list (list Q) * list (list Q) :=
  fold_left
    (fun st x =>
       fold_left (fun st y => push_entry time x y st)
                 (map Z.of_nat (seq 0 10)) st)
    (map Z.of_nat (seq 0 10)) ([], []).

(** [updateText(font, geometry)]; [now] is what [performance.now()]
    returns.  The geometry is returned with its five buffers updated. *)
Definition updateText (fuel : nat) (now : Q) (font_ : font) (geometry : Geometry)
  : outcome Geometry :=
  let time := double (now / 1000)%Q in
  let '(offsets, scales) := grid time in
  attributes <-
    buildMergedText fround font glyph createLayout getPositions getUvs
                    createIndices fuel font_ strings offsets scales ;;
  Return (mkGeometry (mergedPositions attributes) (mergedUvs attributes)
                     (mergedScales attributes) (mergedOffsets attributes)
                     (mergedIndices attributes)).

End Caller.

(** The caller on the quads of [Quads]: no rounding, a sine and a cosine
    that are 0 and 1 everywhere, and a random number whose hexadecimal
    form is the same in every call. *)
Module Still.

Definition Math_sin (_ : Q) : Q := 0.
Definition Math_cos (_ : Q) : Q := 1.
Definition double (q : Q) : Q := q.
Definition random_hex (_ : nat) : string := "0.87ae147ae148".

(** The same, except that the third random number is 0. *)
Definition random_hex_with_zero (n : nat) : string :=
  if Nat.eqb n 2 then "0" else "0.87ae147ae148".

Abbreviation grid := (grid Math_sin Math_cos double).

Abbreviation updateText :=
  (updateText Quads.fround Quads.font Quads.glyph Quads.createLayout
              Quads.getPositions Quads.getUvs Quads.createIndices
              Math_sin Math_cos double).

End Still.

(** * Properties *)

(** ** Lists *)

Lemma cycle_length (P : list Q) (n : nat) : List.length (cycle P n) = n.
Proof. unfold cycle. now rewrite length_map, length_seq. Qed.

Lemma firstn_seq_le (k n a : nat) :
  (k <= n)%nat -> firstn k (seq a n) = seq a k.
Proof.
  revert n a. induction k as [|k IH]; intros n a Hk; [reflexivity|].
  destruct n as [|n]; [lia|]. simpl. f_equal. apply IH. lia.
Qed.

Lemma cycle_firstn (P : list Q) (k n : nat) :
  (k <= n)%nat -> firstn k (cycle P n) = cycle P k.
Proof.
  intros Hk. unfold cycle.
  now rewrite firstn_map, firstn_seq_le.
Qed.

Lemma map_seq_from {A : Type} (f : nat -> A) (a b : nat) :
  map f (seq a b) = map (fun j => f (a + j)%nat) (seq 0 b).
Proof.
  revert f. induction a as [|a IH]; intros f.
  - reflexivity.
  - rewrite <- seq_shift, map_map, IH. reflexivity.
Qed.

Lemma cycle_app (P : list Q) (a b : nat) :
  Nat.divide (List.length P) a -> cycle P (a + b) = cycle P a ++ cycle P b.
Proof.
  intros [k ->]. unfold cycle.
  rewrite seq_app, map_app. f_equal.
  rewrite map_seq_from. apply map_ext. intros j. simpl.
  now rewrite Nat.add_comm, Nat.Div0.mod_add.
Qed.

Lemma cycle_nth (P : list Q) (n j : nat) :
  (j < n)%nat ->
  nth j (cycle P n) 0%Q = nth (j mod List.length P)%nat P 0%Q.
Proof.
  intros Hj. unfold cycle.
  rewrite (nth_indep _ _ (nth (0 mod List.length P)%nat P 0%Q))
    by now rewrite length_map, length_seq.
  rewrite (map_nth (fun j => nth (j mod List.length P)%nat P 0%Q)).
  now rewrite seq_nth.
Qed.

Lemma cycle_self (P : list Q) : cycle P (List.length P) = P.
Proof.
  apply nth_ext with (d := 0%Q) (d' := 0%Q).
  - apply cycle_length.
  - intros i Hi. rewrite cycle_length in Hi.
    rewrite cycle_nth by assumption.
    now rewrite Nat.mod_small.
Qed.

Lemma cycle_repeat (P : list Q) (k : nat) :
  cycle P (k * List.length P) = List.concat (repeat P k).
Proof.
  induction k as [|k IH]; [reflexivity|].
  simpl. rewrite cycle_app by (exists 1%nat; lia).
  now rewrite IH, cycle_self.
Qed.

Lemma firstn_app_exact {A : Type} (l1 l2 : list A) (n : nat) :
  n = List.length l1 -> firstn n (l1 ++ l2) = l1.
Proof.
  intros ->. rewrite firstn_app, firstn_all, Nat.sub_diag, firstn_0.
  apply app_nil_r.
Qed.

Lemma firstn_of_prefix {A : Type} (l : list A) (k n : nat) :
  (k <= n)%nat -> firstn k l = firstn k (firstn n l).
Proof. intros H. now rewrite firstn_firstn, Nat.min_l. Qed.

Lemma skipn_app_exact {A : Type} (l1 l2 : list A) (n : nat) :
  n = List.length l1 -> skipn n (l1 ++ l2) = l2.
Proof.
  intros ->. rewrite skipn_app, skipn_all, Nat.sub_diag, skipn_0.
  reflexivity.
Qed.

(** ** ECMAScript primitives *)

Lemma shl_1_small (x : Z) : 0 <= x -> 2 * x < 2 ^ 31 -> shl x 1 = 2 * x.
Proof.
  intros H0 H1. unfold shl, ToInt32.
  change (1 mod 32) with 1. rewrite Z.shiftl_mul_pow2 by lia.
  change (2 ^ 1) with 2.
  rewrite (Z.mod_small (x + 2 ^ 31)) by lia.
  replace (x + 2 ^ 31 - 2 ^ 31) with x by lia.
  rewrite Z.mod_small by lia. lia.
Qed.

Lemma shl_0 : shl 0 1 = 0.
Proof. reflexivity. Qed.

(** ** Typed arrays *)

Section TypedArrayFacts.

Variable fround : Q -> Q.

Lemma stored_length (C : ArrayType) (a : TypedArray) :
  List.length (TA.stored fround C a) = List.length (elements a).
Proof.
  unfold TA.stored. destruct (ArrayType_eqb _ _); [reflexivity|].
  apply length_map.
Qed.

Lemma ArrayType_eqb_eq (a b : ArrayType) : ArrayType_eqb a b = true <-> a = b.
Proof. destruct a, b; simpl; split; intros H; try reflexivity; discriminate. Qed.

Lemma stored_same (C : ArrayType) (a : TypedArray) :
  constructor a = C -> TA.stored fround C a = elements a.
Proof.
  intros H. unfold TA.stored.
  now rewrite (proj2 (ArrayType_eqb_eq _ _) H).
Qed.

Lemma set_returns (target source : TypedArray) (offset : Z) :
  0 <= offset -> TA.length source + offset <= TA.length target ->
  TA.set fround target source offset =
  Return (mkTypedArray (constructor target)
            (firstn (Z.to_nat offset) (elements target)
             ++ TA.stored fround (constructor target) source
             ++ skipn (Z.to_nat (offset + TA.length source)) (elements target))).
Proof.
  intros H0 H1. unfold TA.set.
  destruct (offset <? 0) eqn:E0; [lia|].
  destruct (TA.length source + offset >? TA.length target) eqn:E1; [lia|].
  reflexivity.
Qed.

Lemma set_throws (target source : TypedArray) :
  TA.length target < TA.length source ->
  TA.set fround target source 0 = Throw RangeError.
Proof.
  intros H. unfold TA.set.
  destruct (TA.length source + 0 >? TA.length target) eqn:E1; [|lia].
  reflexivity.
Qed.

Lemma copyWithin_nothing (a : TypedArray) : TA.copyWithin a 0 0 0 = a.
Proof.
  unfold TA.copyWithin, TA.relative. simpl.
  destruct (0 <? Z.min _ _) eqn:E; [|reflexivity].
  unfold TA.length in E. lia.
Qed.

Lemma copyWithin_prefix (a : TypedArray) (to count : Z) :
  0 <= to -> 0 < count -> to + count <= TA.length a ->
  TA.copyWithin a to 0 count =
  mkTypedArray (constructor a)
    (firstn (Z.to_nat to) (elements a)
     ++ firstn (Z.to_nat count) (elements a)
     ++ skipn (Z.to_nat (to + count)) (elements a)).
Proof.
  intros H0 H1 H2. unfold TA.copyWithin, TA.relative.
  destruct (to <? 0) eqn:E0; [lia|].
  destruct (count <? 0) eqn:E1; [lia|].
  change (0 <? 0) with false. cbv iota.
  rewrite (Z.min_l to), (Z.min_l count), (Z.min_l 0) by lia.
  rewrite Z.sub_0_r, (Z.min_l count) by lia.
  destruct (0 <? count) eqn:E2; [|lia].
  reflexivity.
Qed.

Lemma relative_bounds (len i : Z) : 0 <= len -> 0 <= TA.relative len i <= len.
Proof.
  intros H. unfold TA.relative. destruct (i <? 0) eqn:E; lia.
Qed.

Lemma copyWithin_length (a : TypedArray) (target start end_ : Z) :
  TA.length (TA.copyWithin a target start end_) = TA.length a.
Proof.
  unfold TA.copyWithin.
  assert (Hlen : 0 <= TA.length a) by (unfold TA.length; lia).
  pose proof (relative_bounds (TA.length a) target Hlen) as Hto.
  pose proof (relative_bounds (TA.length a) start Hlen) as Hfrom.
  pose proof (relative_bounds (TA.length a) end_ Hlen) as Hfinal.
  destruct (0 <? Z.min _ _) eqn:E; [|reflexivity].
  unfold TA.length at 1. simpl.
  rewrite !length_app, !length_firstn, !length_skipn.
  unfold TA.length in *. lia.
Qed.

End TypedArrayFacts.

(** ** The broadcast fill *)

Section FillFacts.

Variable fround : Q -> Q.

(** The loop invariant: the first [position] elements are the naive
    repetition of the pattern [P], and while the loop is not over
    [sequenceLength] equals [position], a multiple of the pattern's
    length. *)
Lemma fill_while_returns (P : list Q) (L : Z) (fuel : nat) :
  forall (p s : Z) (a : TypedArray),
    TA.length a = L ->
    (1 <= List.length P)%nat ->
    Z.of_nat (List.length P) <= p <= L ->
    L <= 2 ^ 31 ->
    (p = L \/ (s = p /\ Nat.divide (List.length P) (Z.to_nat p))) ->
    firstn (Z.to_nat p) (elements a) = cycle P (Z.to_nat p) ->
    L <= p * 2 ^ Z.of_nat fuel ->
    fill_while fuel L (p, s, a) =
    Return (mkTypedArray (constructor a) (cycle P (Z.to_nat L))).
Proof.
  induction fuel as [|fuel IH]; intros p s a Hlen HP Hp HL Hs Hdata Hfuel.
  - simpl in *. destruct (p <? L) eqn:E; [lia|].
    assert (p = L) by lia. subst p.
    rewrite <- Hdata, <- Hlen. unfold TA.length.
    rewrite Nat2Z.id, firstn_all. now destruct a.
  - cbn [fill_while]. destruct (p <? L) eqn:E.
    2:{ assert (p = L) by lia. subst p.
        rewrite <- Hdata, <- Hlen. unfold TA.length.
        rewrite Nat2Z.id, firstn_all. now destruct a. }
    destruct Hs as [Hs|[-> Hdiv]]; [lia|].
    assert (Hlen' : Z.of_nat (List.length (elements a)) = L) by exact Hlen.
    unfold fill_body.
    destruct (p + p >? L) eqn:E2.
    + (* the last, truncated copy *)
      rewrite copyWithin_prefix by lia.
      replace (p + (L - p)) with L by lia.
      rewrite IH with (a := mkTypedArray _ _); simpl.
      * reflexivity.
      * unfold TA.length. simpl.
        rewrite !length_app, !length_firstn, length_skipn. lia.
      * assumption.
      * lia.
      * assumption.
      * now left.
      * rewrite skipn_all2 by lia. rewrite app_nil_r.
        rewrite (firstn_of_prefix (elements a) (Z.to_nat (L - p)) (Z.to_nat p))
          by lia.
        rewrite Hdata, cycle_firstn by lia.
        rewrite <- cycle_app by assumption.
        replace (Z.to_nat p + Z.to_nat (L - p))%nat with (Z.to_nat L) by lia.
        apply firstn_all2. rewrite cycle_length. lia.
      * assert (0 < 2 ^ Z.of_nat fuel) by (apply Z.pow_pos_nonneg; lia). nia.
    + (* a full doubling copy *)
      rewrite copyWithin_prefix by lia.
      rewrite IH with (a := mkTypedArray _ _); simpl.
      * reflexivity.
      * unfold TA.length. simpl.
        rewrite !length_app, !length_firstn, length_skipn. lia.
      * assumption.
      * lia.
      * assumption.
      * destruct (Z.eq_dec (p + p) L) as [Heq|Hne]; [now left|right].
        split.
        -- replace (p + p) with (2 * p) by lia. apply shl_1_small; lia.
        -- replace (Z.to_nat (p + p)) with (Z.to_nat p + Z.to_nat p)%nat by lia.
           now apply Nat.divide_add_r.
      * rewrite Hdata.
        replace (Z.to_nat (p + p)) with (Z.to_nat p + Z.to_nat p)%nat by lia.
        rewrite app_assoc, <- cycle_app by assumption.
        apply firstn_app_exact. now rewrite cycle_length.
      * rewrite Nat2Z.inj_succ, Z.pow_succ_r in Hfuel by lia. lia.
Qed.

(** On a pattern that fits, and a target of at most 2^31 elements, the
    doubling fill returns what the naive fill returns. *)
Lemma fill_returns_naive (fuel : nat) (typedArray sequence : TypedArray) :
  1 <= TA.length sequence <= TA.length typedArray ->
  TA.length typedArray <= 2 ^ 31 ->
  (31 <= fuel)%nat ->
  fillTypedArraySequence fround fuel typedArray sequence =
  Return (naiveFill fround typedArray sequence).
Proof.
  intros Hseq HL Hfuel. unfold fillTypedArraySequence, naiveFill.
  rewrite set_returns by lia. cbn [bind].
  set (P := TA.stored fround (constructor typedArray) sequence).
  assert (HP : Z.of_nat (List.length P) = TA.length sequence).
  { unfold P. now rewrite stored_length. }
  rewrite fill_while_returns with (P := P); simpl.
  - unfold TA.length. now rewrite Nat2Z.id.
  - unfold TA.length in *. simpl.
    rewrite !length_app, length_skipn. lia.
  - lia.
  - lia.
  - assumption.
  - right. split; [reflexivity|]. exists 1%nat. lia.
  - rewrite <- HP, Nat2Z.id. rewrite firstn_app_exact by reflexivity.
    symmetry. apply cycle_self.
  - assert (2 ^ 31 <= 2 ^ Z.of_nat fuel) by (apply Z.pow_le_mono_r; lia).
    nia.
Qed.

Lemma fill_while_more_fuel (L : Z) (fuel : nat) :
  forall (st : Z * Z * TypedArray) (r : TypedArray) (fuel' : nat),
    fill_while fuel L st = Return r -> (fuel <= fuel')%nat ->
    fill_while fuel' L st = Return r.
Proof.
  induction fuel as [|fuel IH]; intros [[p s] a] r fuel' H Hle.
  - cbn [fill_while] in H. destruct fuel'; cbn [fill_while];
      destruct (p <? L); try discriminate; assumption.
  - destruct fuel' as [|fuel']; [lia|].
    cbn [fill_while] in *. destruct (p <? L); [|assumption].
    apply IH; [assumption|lia].
Qed.

(** Below 2^31 elements, whatever the fuel, the fill returns nothing but
    the naive fill. *)
Lemma fill_returns_only_naive (fuel : nat) (typedArray sequence r : TypedArray) :
  1 <= TA.length sequence <= TA.length typedArray ->
  TA.length typedArray <= 2 ^ 31 ->
  fillTypedArraySequence fround fuel typedArray sequence = Return r ->
  r = naiveFill fround typedArray sequence.
Proof.
  intros Hseq HL H.
  pose proof (fill_returns_naive (Nat.max fuel 31) typedArray sequence Hseq HL
                (Nat.le_max_r fuel 31)) as Hnaive.
  unfold fillTypedArraySequence in *.
  rewrite set_returns in * by lia. cbn [bind] in *.
  apply (fill_while_more_fuel _ _ _ _ (Nat.max fuel 31)) in H;
    [|apply Nat.le_max_l].
  congruence.
Qed.

End FillFacts.

(** ** Where the fill does not return *)

Section FillDiverges.

Variable fround : Q -> Q.

Lemma fill_body_control (L p s : Z) (a : TypedArray) :
  exists a', fill_body L (p, s, a) =
             (fst (fill_control L (p, s)), snd (fill_control L (p, s)), a')
             /\ TA.length a' = TA.length a.
Proof.
  unfold fill_body, fill_control.
  destruct (p + s >? L); eexists; (split; [reflexivity|]);
    apply copyWithin_length.
Qed.

Lemma fill_while_standstill (L : Z) (fuel : nat) (a : TypedArray) :
  0 < L -> fill_while fuel L (0, 0, a) = OutOfFuel.
Proof.
  intros HL. induction fuel as [|fuel IH]; cbn [fill_while].
  - destruct (0 <? L) eqn:E; [reflexivity|lia].
  - destruct (0 <? L) eqn:E; [|lia].
    unfold fill_body. change (0 + 0) with 0.
    destruct (0 >? L) eqn:E'; [lia|].
    now rewrite copyWithin_nothing, shl_0.
Qed.

Lemma fill_while_never_returns (L : Z) (k : nat) :
  forall (p s : Z) (fuel : nat) (a : TypedArray),
    reaches_standstill k L (p, s) = true ->
    fill_while fuel L (p, s, a) = OutOfFuel.
Proof.
  induction k as [|k IH]; intros p s fuel a H;
    cbn [reaches_standstill fst snd] in H.
  - apply andb_prop in H as [H1 H2]. apply andb_prop in H2 as [H2 H3].
    assert (p = 0) by lia. assert (s = 0) by lia. subst.
    apply fill_while_standstill. lia.
  - apply andb_prop in H as [H1 H2].
    destruct fuel as [|fuel]; cbn [fill_while]; rewrite H1; [reflexivity|].
    destruct (fill_body_control L p s a) as (a' & -> & _).
    apply IH. now destruct (fill_control L (p, s)).
Qed.

(** An empty pattern over a non-empty target: the loop stands still. *)
Lemma fill_empty_pattern (fuel : nat) (typedArray sequence : TypedArray) :
  TA.length sequence = 0 -> 0 < TA.length typedArray ->
  fillTypedArraySequence fround fuel typedArray sequence = OutOfFuel.
Proof.
  intros H0 HL. unfold fillTypedArraySequence.
  rewrite set_returns by lia. cbn [bind]. rewrite H0.
  now apply fill_while_standstill.
Qed.

(** A pattern longer than the target: [set] throws. *)
Lemma fill_oversized_pattern (fuel : nat) (typedArray sequence : TypedArray) :
  TA.length typedArray < TA.length sequence ->
  fillTypedArraySequence fround fuel typedArray sequence = Throw RangeError.
Proof.
  intros H. unfold fillTypedArraySequence.
  now rewrite set_throws.
Qed.

(** Once [sequenceLength << 1] has wrapped around, the loop stands
    still whatever the array holds. *)
Lemma fill_wraps_around (k : nat) (fuel : nat) (typedArray sequence : TypedArray) :
  TA.length sequence <= TA.length typedArray ->
  reaches_standstill k (TA.length typedArray)
    (TA.length sequence, TA.length sequence) = true ->
  fillTypedArraySequence fround fuel typedArray sequence = OutOfFuel.
Proof.
  intros Hle H. unfold fillTypedArraySequence.
  rewrite set_returns by lia. cbn [bind].
  now apply fill_while_never_returns with (k := k).
Qed.

Lemma reaches_standstill_longer (k : nat) (L0 L : Z) :
  L0 <= L ->
  forall c : Z * Z,
    reaches_standstill_untruncated k L0 c = true ->
    reaches_standstill k L c = true.
Proof.
  intros HL. induction k as [|k IH]; intros [p s] H;
    cbn [reaches_standstill_untruncated reaches_standstill fst snd] in *;
    apply andb_prop in H as [H H3]; apply andb_prop in H as [H1 H2];
    apply andb_true_intro; (split; [lia|]).
  - exact H3.
  - apply IH. unfold fill_control in *.
    destruct (p + s >? L0) eqn:E0; [lia|].
    destruct (p + s >? L) eqn:E; [lia|]. exact H3.
Qed.

(** A pattern of two elements over a target of more than 2^31: the fill
    never returns. *)
Lemma fill_pair_never_returns (fuel : nat) (typedArray sequence : TypedArray) :
  TA.length sequence = 2 -> 2 ^ 31 < TA.length typedArray ->
  fillTypedArraySequence fround fuel typedArray sequence = OutOfFuel.
Proof.
  intros Hn HL. apply (fill_wraps_around 31); [lia|].
  rewrite Hn. apply (reaches_standstill_longer 31 (2 ^ 31 + 1)); [lia|].
  vm_compute. reflexivity.
Qed.

End FillDiverges.

(** ** Concatenation *)

Section MergeFacts.

Variable fround : Q -> Q.

Lemma skipn_repeat {A : Type} (x : A) (n k : nat) :
  skipn n (repeat x k) = repeat x (k - n).
Proof.
  revert k. induction n as [|n IH]; intros k.
  - now rewrite Nat.sub_0_r.
  - destruct k as [|k]; [reflexivity|]. simpl. apply IH.
Qed.

Lemma total_length_from (typedArrays : list TypedArray) (acc : Z) :
  fold_left (fun length a => length + TA.length a) typedArrays acc =
  acc + fold_left (fun length a => length + TA.length a) typedArrays 0.
Proof.
  revert acc. induction typedArrays as [|a l IH]; intros acc; simpl.
  - lia.
  - rewrite IH, (IH (TA.length a)). lia.
Qed.

Lemma total_length_concat (C : ArrayType) (typedArrays : list TypedArray) :
  fold_left (fun length a => length + TA.length a) typedArrays 0 =
  Z.of_nat (List.length (List.concat (map (TA.stored fround C) typedArrays))).
Proof.
  induction typedArrays as [|a l IH]; [reflexivity|].
  simpl. rewrite total_length_from, IH, length_app, stored_length.
  unfold TA.length. lia.
Qed.

Lemma merge_copy_returns (C : ArrayType) (typedArrays : list TypedArray) :
  forall (pre : list Q),
    merge_copy fround typedArrays
      (mkTypedArray C
         (pre ++ repeat 0%Q
            (List.length (List.concat (map (TA.stored fround C) typedArrays)))))
      (Z.of_nat (List.length pre)) =
    Return (mkTypedArray C
              (pre ++ List.concat (map (TA.stored fround C) typedArrays))).
Proof.
  induction typedArrays as [|a l IH]; intros pre.
  - simpl. now rewrite app_nil_r.
  - cbn [merge_copy map List.concat].
    rewrite set_returns; cbn [constructor elements bind].
    + rewrite firstn_app_exact by lia.
      replace (Z.to_nat (Z.of_nat (List.length pre) + TA.length a))
        with (List.length (elements a) + List.length pre)%nat
        by (unfold TA.length; lia).
      rewrite <- (skipn_skipn (List.length (elements a)) (List.length pre)).
      rewrite skipn_app_exact by reflexivity.
      rewrite skipn_repeat, length_app, stored_length.
      replace (List.length (elements a)
               + List.length (List.concat (map (TA.stored fround C) l))
               - List.length (elements a))%nat
        with (List.length (List.concat (map (TA.stored fround C) l))) by lia.
      rewrite app_assoc.
      replace (Z.of_nat (List.length pre) + TA.length a)
        with (Z.of_nat (List.length (pre ++ TA.stored fround C a)))
        by (rewrite length_app, stored_length; unfold TA.length; lia).
      rewrite IH. now rewrite <- app_assoc.
    + lia.
    + unfold TA.length. cbn [elements].
      rewrite !length_app, repeat_length, stored_length. lia.
Qed.

(** A non-empty sequence of buffers is concatenated into a buffer of the
    first one's type. *)
Lemma merge_returns_concatenate (first : TypedArray) (rest : list TypedArray) :
  mergeTypedArrays fround (first :: rest) =
  Return (concatenate fround first rest).
Proof.
  unfold mergeTypedArrays, concatenate, TA.make.
  rewrite (total_length_concat (constructor first)), Nat2Z.id.
  apply (merge_copy_returns (constructor first) (first :: rest) []).
Qed.

End MergeFacts.

(** ** Progress of the fill loop *)

Section FillProgress.

Lemma fill_state_control (L : Z) (k : nat) (p s : Z) (a : TypedArray) :
  fst (Nat.iter k (fill_body L) (p, s, a)) = Nat.iter k (fill_control L) (p, s).
Proof.
  induction k as [|k IH]; [reflexivity|].
  rewrite !Nat.iter_succ, <- IH.
  destruct (Nat.iter k (fill_body L) (p, s, a)) as [[p' s'] a'].
  destruct (fill_body_control L p' s' a') as (a'' & -> & _).
  cbn [fst]. now destruct (fill_control L (p', s')).
Qed.

(** While the loop runs on a pattern that fits, [sequenceLength] equals
    [position], so that a pass moves [position] forward, and not past
    the end. *)
Lemma fill_control_progress (n L p s : Z) :
  1 <= n <= p -> p < L -> L <= 2 ^ 31 -> s = p ->
  p < fst (fill_control L (p, s)) <= L /\
  (fst (fill_control L (p, s)) = L \/
   snd (fill_control L (p, s)) = fst (fill_control L (p, s))).
Proof.
  intros Hn Hp HL ->. unfold fill_control.
  destruct (p + p >? L) eqn:E; cbn [fst snd].
  - split; [lia|]. left. lia.
  - split; [lia|].
    destruct (Z.eq_dec (p + p) L) as [Heq|Hne]; [now left|right].
    replace (p + p) with (2 * p) by lia. apply shl_1_small; lia.
Qed.

Lemma fill_control_invariant (n L : Z) (k : nat) :
  1 <= n <= L -> L <= 2 ^ 31 ->
  (forall j, (j < k)%nat -> fst (Nat.iter j (fill_control L) (n, n)) < L) ->
  n <= fst (Nat.iter k (fill_control L) (n, n)) <= L /\
  (fst (Nat.iter k (fill_control L) (n, n)) = L \/
   snd (Nat.iter k (fill_control L) (n, n))
   = fst (Nat.iter k (fill_control L) (n, n))).
Proof.
  intros Hn HL. induction k as [|k IH]; intros Hrun.
  - simpl. split; [lia|now right].
  - destruct IH as [IH1 IH2]; [intros j Hj; apply Hrun; lia|].
    specialize (Hrun k (Nat.lt_succ_diag_r k)).
    destruct IH2 as [IH2|IH2]; [lia|].
    rewrite Nat.iter_succ.
    destruct (Nat.iter k (fill_control L) (n, n)) as [p s].
    cbn [fst snd] in *.
    destruct (fill_control_progress n L p s) as [H1 H2]; lia.
Qed.

End FillProgress.

(** ** Numbers *)

Lemma truncate_proper (q1 q2 : Q) : (q1 == q2)%Q -> truncate q1 = truncate q2.
Proof.
  intros H. unfold truncate.
  rewrite (Qfloor_comp _ _ H), (Qceiling_comp _ _ H).
  destruct (Qle_bool 0 q1) eqn:E1, (Qle_bool 0 q2) eqn:E2; try reflexivity.
  - apply Qle_bool_iff in E1. rewrite H in E1. apply Qle_bool_iff in E1. congruence.
  - apply Qle_bool_iff in E2. rewrite <- H in E2. apply Qle_bool_iff in E2. congruence.
Qed.

Lemma truncate_inject_Z (z : Z) : truncate (inject_Z z) = z.
Proof.
  unfold truncate. destruct (Qle_bool 0 (inject_Z z)).
  - apply Qfloor_Z.
  - apply Qceiling_Z.
Qed.

Lemma truncate_halves (q : Q) (a : Z) :
  (q == a # 2)%Q -> 0 <= a -> truncate q = a / 2.
Proof.
  intros H Ha. rewrite (truncate_proper _ _ H). unfold truncate.
  assert (Hle : Qle_bool 0 (a # 2) = true).
  { apply Qle_bool_iff. unfold Qle. simpl. lia. }
  rewrite Hle. reflexivity.
Qed.

Lemma halves_add (q : Q) (a L : Z) :
  (q == a # 2)%Q -> (q + inject_Z L / 2 == (a + L) # 2)%Q.
Proof.
  intros H. rewrite H. unfold Qeq, Qplus, Qdiv, Qmult, Qinv. simpl. ring.
Qed.

Lemma index_plus_halves (q : Q) (z a : Z) :
  (q == a # 2)%Q -> (inject_Z z + q == (2 * z + a) # 2)%Q.
Proof.
  intros H. rewrite H. unfold Qeq, Qplus, inject_Z. cbn [Qnum Qden].
  change (Z.pos (1 * 2)) with 2. lia.
Qed.

Lemma truncate_twice_half (L : Z) : truncate (inject_Z L / 2 * 2)%Q = L.
Proof.
  rewrite <- (truncate_inject_Z L) at 2. apply truncate_proper.
  unfold Qeq, Qdiv, Qmult, Qinv. simpl. ring.
Qed.

Lemma ToUint16_shift (q : Q) (z a : Z) :
  (q == a # 2)%Q -> 0 <= a -> 0 <= z ->
  ToUintN 16 (inject_Z z + q) = inject_Z ((z + a / 2) mod 2 ^ 16).
Proof.
  intros H Ha Hz. unfold ToUintN. f_equal. f_equal.
  rewrite (truncate_halves _ (2 * z + a)) by (try apply index_plus_halves; auto; lia).
  replace (2 * z + a) with (a + z * 2) by lia.
  rewrite Z.div_add by lia. lia.
Qed.

(** ** The batch merge *)

Lemma make_length (C : ArrayType) (n : Z) : 0 <= n -> TA.length (TA.make C n) = n.
Proof.
  intros H. unfold TA.length, TA.make. cbn [elements].
  rewrite repeat_length. lia.
Qed.

Lemma concatenate_all_length (fround : Q -> Q) (l : list TypedArray) :
  TA.length (concatenate_all fround l) =
  fold_right (fun a n => TA.length a + n) 0 l.
Proof.
  destruct l as [|first rest]; [reflexivity|].
  unfold concatenate_all, concatenate, TA.length at 1. cbn [elements].
  generalize (constructor first) as C. intros C.
  induction (first :: rest) as [|a l IH]; [reflexivity|].
  cbn [map List.concat fold_right].
  rewrite length_app, stored_length, Nat2Z.inj_add, IH. reflexivity.
Qed.

Lemma concatenate_all_same (fround : Q -> Q) (C : ArrayType) (l : list TypedArray) :
  l <> [] -> Forall (fun a => constructor a = C) l ->
  concatenate_all fround l = mkTypedArray C (List.concat (map elements l)).
Proof.
  intros Hne Hall. destruct l as [|first rest]; [congruence|].
  unfold concatenate_all, concatenate.
  assert (HC : constructor first = C) by now inversion Hall.
  rewrite HC. f_equal. f_equal.
  apply map_ext_in. intros a Ha.
  apply stored_same. rewrite Forall_forall in Hall. now apply Hall.
Qed.

Lemma merge_returns_all (fround : Q -> Q) (l : list TypedArray) :
  l <> [] -> mergeTypedArrays fround l = Return (concatenate_all fround l).
Proof.
  intros H. destruct l as [|first rest]; [congruence|].
  apply merge_returns_concatenate.
Qed.

Section BatchFacts.

Variable fround : Q -> Q.
Variable font : Type.
Variable glyph : Type.
Variable createLayout : font -> string -> Z -> string -> list glyph.
Variable getPositions : list glyph -> TypedArray.
Variable getUvs : list glyph -> Z -> Z -> bool -> TypedArray.
Variable createIndices : bool -> string -> Z -> list Q.

Local Abbreviation createTextAttributes' :=
  (createTextAttributes fround font glyph createLayout getPositions getUvs
                        createIndices).
Local Abbreviation positionsLength' :=
  (positionsLength fround font glyph createLayout getPositions getUvs
                   createIndices).
Local Abbreviation localIndices' := (localIndices font glyph createLayout createIndices).
Local Abbreviation totalPositions' :=
  (totalPositions fround font glyph createLayout getPositions getUvs createIndices).
Local Abbreviation shiftedIndices' :=
  (shiftedIndices fround font glyph createLayout getPositions getUvs createIndices).
Local Abbreviation instances_fillable' :=
  (instances_fillable fround font glyph createLayout getPositions getUvs
                      createIndices).
Local Abbreviation build_body' :=
  (build_body fround font glyph createLayout getPositions getUvs createIndices).
Local Abbreviation build_loop' :=
  (build_loop fround font glyph createLayout getPositions getUvs createIndices).
Local Abbreviation buildMergedText' :=
  (buildMergedText fround font glyph createLayout getPositions getUvs
                   createIndices).

Lemma positionsLength_nonneg (font_ : font) (text : string) :
  0 <= positionsLength' font_ text.
Proof. unfold positionsLength, TA.length. lia. Qed.

Lemma target_length (font_ : font) (text : string) :
  TA.length
    (TA.make Float32Array
       (truncate (vertexCount (createTextAttributes' font_ text) * 2)%Q))
  = positionsLength' font_ text.
Proof.
  unfold vertexCount. rewrite truncate_twice_half.
  apply make_length. apply positionsLength_nonneg.
Qed.

Lemma fill_pattern_returns (fuel : nat) (font_ : font) (text : string)
      (pattern : option (list Q)) :
  fillable (positionsLength' font_ text) pattern = true ->
  (31 <= fuel)%nat ->
  fillTypedArraySequence fround fuel
    (TA.make Float32Array
       (truncate (vertexCount (createTextAttributes' font_ text) * 2)%Q))
    (TA.from fround Float32Array pattern)
  = Return (naiveFill fround
              (TA.make Float32Array
                 (truncate (vertexCount (createTextAttributes' font_ text) * 2)%Q))
              (TA.from fround Float32Array pattern)).
Proof.
  intros H Hfuel. destruct pattern as [p|]; [|discriminate].
  unfold fillable in H.
  apply andb_prop in H as [H H3]. apply andb_prop in H as [H1 H2].
  apply fill_returns_naive; rewrite ?target_length; try lia.
  unfold TA.from, TA.length. cbn [elements]. rewrite length_map. lia.
Qed.

Lemma build_body_inv (fuel : nat) (font_ : font) (offsets scales : list (list Q))
      (i : nat) (text : string) (st st' : Arrays) :
  build_body' fuel font_ offsets scales i text st = Return st' ->
  exists offsetsBuffer scalesBuffer : TypedArray,
    st' = mkArrays
            (maxIndex st + vertexCount (createTextAttributes' font_ text))%Q
            (positionsArrays st ++ [positions (createTextAttributes' font_ text)])
            (uvsArrays st ++ [uvs (createTextAttributes' font_ text)])
            (indicesArrays st
             ++ [add_maxIndex fround (indices (createTextAttributes' font_ text))
                   (maxIndex st)])
            (offsetsArrays st ++ [offsetsBuffer])
            (scalesArrays st ++ [scalesBuffer]) /\
    fillTypedArraySequence fround fuel
      (TA.make Float32Array
         (truncate (vertexCount (createTextAttributes' font_ text) * 2)%Q))
      (TA.from fround Float32Array (nth_error offsets i))
    = Return offsetsBuffer /\
    fillTypedArraySequence fround fuel
      (TA.make Float32Array
         (truncate (vertexCount (createTextAttributes' font_ text) * 2)%Q))
      (TA.from fround Float32Array (nth_error scales i))
    = Return scalesBuffer.
Proof.
  unfold build_body.
  destruct (fillTypedArraySequence fround fuel _
              (TA.from fround Float32Array (nth_error offsets i)))
    as [ob| |]; cbn [bind]; try discriminate.
  destruct (fillTypedArraySequence fround fuel _
              (TA.from fround Float32Array (nth_error scales i)))
    as [sb| |]; cbn [bind]; try discriminate.
  intros H. injection H as <-. now exists ob, sb.
Qed.

(** With an offset and a scale that fill every instance, the loop
    returns. *)
Lemma build_loop_returns (fuel : nat) (font_ : font) (textArray : list string)
      (offsets scales : list (list Q)) :
  (31 <= fuel)%nat ->
  forall (i : nat) (st : Arrays),
    instances_fillable' font_ textArray offsets scales i = true ->
    exists st' : Arrays,
      build_loop' fuel font_ textArray offsets scales i st = Return st'.
Proof.
  intros Hfuel. induction textArray as [|text rest IH]; intros i st H.
  - now exists st.
  - cbn [instances_fillable] in H.
    apply andb_prop in H as [H H3]. apply andb_prop in H as [H1 H2].
    cbn [build_loop]. unfold build_body.
    rewrite !fill_pattern_returns by assumption. cbn [bind].
    now apply IH.
Qed.

Lemma concat_elements_snoc (l : list TypedArray) (a : TypedArray) :
  List.concat (map elements (l ++ [a])) = List.concat (map elements l) ++ elements a.
Proof.
  rewrite map_app, concat_app. cbn [map List.concat]. now rewrite app_nil_r.
Qed.

Lemma sum_lengths_snoc (l : list TypedArray) (a : TypedArray) :
  fold_right (fun a n => TA.length a + n) 0 (l ++ [a]) =
  fold_right (fun a n => TA.length a + n) 0 l + TA.length a.
Proof.
  induction l as [|b l IH]; cbn [app fold_right]; lia.
Qed.

Lemma localIndices_elements (font_ : font) (text : string) :
  elements (indices (createTextAttributes' font_ text))
  = map inject_Z (localIndices' font_ text).
Proof.
  unfold createTextAttributes, localIndices, TA.from.
  cbn [indices elements]. rewrite map_map. reflexivity.
Qed.

Lemma localIndices_range (font_ : font) (text : string) (k : Z) :
  In k (localIndices' font_ text) -> 0 <= k < 2 ^ 16.
Proof.
  unfold localIndices. rewrite in_map_iff. intros (q & <- & _).
  apply Z.mod_pos_bound. lia.
Qed.

Lemma add_maxIndex_elements (font_ : font) (text : string) (m : Q) (a : Z) :
  (m == a # 2)%Q -> 0 <= a ->
  elements (add_maxIndex fround (indices (createTextAttributes' font_ text)) m)
  = map inject_Z
      (map (fun k => (k + a / 2) mod 2 ^ 16) (localIndices' font_ text)).
Proof.
  intros Hm Ha. unfold add_maxIndex. cbn [elements].
  rewrite localIndices_elements, !map_map.
  apply map_ext_in. intros k Hk.
  apply localIndices_range in Hk.
  change (constructor (indices (createTextAttributes' font_ text)))
    with Uint16Array.
  cbn [TA.convert]. apply ToUint16_shift; auto; lia.
Qed.

(** What the loop has done when it returns: one array more in each of the
    five lists for every text, the position buffers as they came, and the
    index buffers shifted; [a] is twice the vertex count at the start. *)
Lemma build_loop_inv (fuel : nat) (font_ : font) (textArray : list string)
      (offsets scales : list (list Q)) :
  forall (i : nat) (st st' : Arrays) (a : Z),
    build_loop' fuel font_ textArray offsets scales i st = Return st' ->
    (maxIndex st == a # 2)%Q -> 0 <= a ->
    Forall (fun b => constructor b = Uint16Array) (indicesArrays st) ->
    (List.length (positionsArrays st')
     = (List.length (positionsArrays st) + List.length textArray)%nat /\
     List.length (uvsArrays st')
     = (List.length (uvsArrays st) + List.length textArray)%nat /\
     List.length (indicesArrays st')
     = (List.length (indicesArrays st) + List.length textArray)%nat /\
     List.length (offsetsArrays st')
     = (List.length (offsetsArrays st) + List.length textArray)%nat /\
     List.length (scalesArrays st')
     = (List.length (scalesArrays st) + List.length textArray)%nat) /\
    fold_right (fun b n => TA.length b + n) 0 (positionsArrays st')
    = fold_right (fun b n => TA.length b + n) 0 (positionsArrays st)
      + totalPositions' font_ textArray /\
    Forall (fun b => constructor b = Uint16Array) (indicesArrays st') /\
    List.concat (map elements (indicesArrays st'))
    = List.concat (map elements (indicesArrays st))
      ++ map inject_Z (shiftedIndices' font_ textArray a).
Proof.
  induction textArray as [|text rest IH]; intros i st st' a H Hm Ha Hall.
  - cbn [build_loop] in H. injection H as <-.
    cbn [List.length totalPositions fold_right shiftedIndices map].
    rewrite app_nil_r. repeat split; auto; lia.
  - cbn [build_loop] in H.
    destruct (build_body' fuel font_ offsets scales i text st) as [st1| |] eqn:Eb;
      cbn [bind] in H; try discriminate.
    apply build_body_inv in Eb as (ob & sb & -> & _ & _).
    pose proof (positionsLength_nonneg font_ text) as HL.
    apply (IH _ _ _ (a + positionsLength' font_ text)) in H;
      cbn [maxIndex positionsArrays uvsArrays indicesArrays offsetsArrays
           scalesArrays] in *.
    + destruct H as ((L1 & L2 & L3 & L4 & L5) & Hpos & Hctor & Hidx).
      rewrite !length_app in *. cbn [List.length] in *.
      rewrite sum_lengths_snoc in Hpos.
      rewrite concat_elements_snoc in Hidx.
      rewrite (add_maxIndex_elements font_ text _ a Hm Ha) in Hidx.
      cbn [totalPositions fold_right shiftedIndices].
      fold (totalPositions' font_ rest). unfold positionsLength in *.
      repeat split; try lia; try assumption.
      rewrite Hidx, map_app, <- app_assoc. reflexivity.
    + apply halves_add. exact Hm.
    + lia.
    + apply Forall_app. split; [assumption|].
      constructor; [reflexivity|constructor].
Qed.

Lemma naiveFill_elements (font_ : font) (text : string) (patterns : list (list Q))
      (i : nat) :
  elements
    (naiveFill fround
       (TA.make Float32Array
          (truncate (vertexCount (createTextAttributes' font_ text) * 2)%Q))
       (TA.from fround Float32Array (nth_error patterns i)))
  = cycle (patternOf fround patterns i) (Z.to_nat (positionsLength' font_ text)).
Proof.
  unfold naiveFill. cbn [elements]. f_equal.
  - apply stored_same. now destruct (nth_error patterns i).
  - rewrite <- target_length. unfold TA.length. now rewrite Nat2Z.id.
Qed.

(** What the batch merge has done when it returns: there was an instance,
    the merged positions have the length of all position buffers, and the
    merged indices are the shifted local indices. *)
Lemma buildMergedText_inv (fuel : nat) (font_ : font) (textArray : list string)
      (offsets scales : list (list Q)) (merged : MergedText) :
  buildMergedText' fuel font_ textArray offsets scales = Return merged ->
  textArray <> [] /\
  TA.length (mergedPositions merged) = totalPositions' font_ textArray /\
  mergedIndices merged
  = mkTypedArray Uint16Array (map inject_Z (shiftedIndices' font_ textArray 0)).
Proof.
  unfold buildMergedText. intros H.
  destruct (build_loop' fuel font_ textArray offsets scales 0
              (mkArrays 0 [] [] [] [] [])) as [st| |] eqn:Eloop;
    cbn [bind] in H; try discriminate.
  destruct (build_loop_inv fuel font_ textArray offsets scales 0 _ st 0 Eloop)
    as ((L1 & _ & L3 & _) & Hpos & Hctor & Hidx);
    [reflexivity|lia|constructor|].
  cbn [positionsArrays indicesArrays List.length Nat.add fold_right map
       List.concat app] in *.
  destruct (positionsArrays st) as [|p ps] eqn:Ep;
    [cbn [mergeTypedArrays bind] in H; discriminate|].
  rewrite merge_returns_concatenate in H. cbn [bind] in H.
  destruct (mergeTypedArrays fround (uvsArrays st)) as [mu| |];
    cbn [bind] in H; try discriminate.
  destruct (indicesArrays st) as [|x xs] eqn:Ei;
    [cbn [mergeTypedArrays bind] in H; discriminate|].
  rewrite merge_returns_concatenate in H. cbn [bind] in H.
  destruct (mergeTypedArrays fround (offsetsArrays st)) as [mo| |];
    cbn [bind] in H; try discriminate.
  destruct (mergeTypedArrays fround (scalesArrays st)) as [ms| |];
    cbn [bind] in H; try discriminate.
  injection H as <-. cbn [mergedPositions mergedIndices].
  split; [|split].
  - intros ->. cbn [List.length] in L1. lia.
  - change (concatenate fround p ps) with (concatenate_all fround (p :: ps)).
    rewrite concatenate_all_length, Hpos. lia.
  - change (concatenate fround x xs) with (concatenate_all fround (x :: xs)).
    rewrite (concatenate_all_same fround Uint16Array) by (auto; discriminate).
    now rewrite Hidx.
Qed.

(** On at least one instance, all of them with an offset and a scale that
    fill them, the batch merge returns. *)
Lemma buildMergedText_returns (fuel : nat) (font_ : font) (textArray : list string)
      (offsets scales : list (list Q)) :
  (31 <= fuel)%nat ->
  textArray <> [] ->
  instances_fillable' font_ textArray offsets scales 0 = true ->
  exists merged : MergedText,
    buildMergedText' fuel font_ textArray offsets scales = Return merged.
Proof.
  intros Hfuel Hne Hfill. unfold buildMergedText.
  destruct (build_loop_returns fuel font_ textArray offsets scales Hfuel 0
              (mkArrays 0 [] [] [] [] []) Hfill) as [st Hst].
  rewrite Hst. cbn [bind].
  destruct (build_loop_inv fuel font_ textArray offsets scales 0 _ st 0 Hst)
    as ((L1 & L2 & L3 & L4 & L5) & _); [reflexivity|lia|constructor|].
  cbn [positionsArrays uvsArrays indicesArrays offsetsArrays scalesArrays
       List.length Nat.add] in *.
  assert (HN : (0 < List.length textArray)%nat)
    by (destruct textArray; [congruence|cbn; lia]).
  assert (N1 : positionsArrays st <> [])
    by (intros E; rewrite E in L1; cbn in L1; lia).
  assert (N2 : uvsArrays st <> [])
    by (intros E; rewrite E in L2; cbn in L2; lia).
  assert (N3 : indicesArrays st <> [])
    by (intros E; rewrite E in L3; cbn in L3; lia).
  assert (N4 : offsetsArrays st <> [])
    by (intros E; rewrite E in L4; cbn in L4; lia).
  assert (N5 : scalesArrays st <> [])
    by (intros E; rewrite E in L5; cbn in L5; lia).
  rewrite !merge_returns_all by assumption. cbn [bind].
  eexists. reflexivity.
Qed.

(** Where an instance's indices sit in the merged values. *)
Lemma shiftedIndices_at (font_ : font) (textArray : list string) :
  forall (before : Z) (i j : nat) (text : string) (k : Z),
    nth_error textArray i = Some text ->
    nth_error (localIndices' font_ text) j = Some k ->
    nth_error (shiftedIndices' font_ textArray before)
      (indexOffset font glyph createLayout createIndices font_ textArray i + j)
    = Some ((k + (before + totalPositions' font_ (firstn i textArray)) / 2)
            mod 2 ^ 16).
Proof.
  induction textArray as [|text0 rest IH]; intros before i j text k Hi Hj.
  - destruct i; discriminate.
  - destruct i as [|i]; cbn [nth_error] in Hi.
    + injection Hi as ->. unfold indexOffset.
      cbn [firstn map List.concat List.length Nat.add shiftedIndices
           totalPositions fold_right].
      rewrite nth_error_app1
        by (rewrite length_map; apply nth_error_Some; congruence).
      rewrite nth_error_map, Hj. cbn [option_map].
      now rewrite Z.add_0_r.
    + unfold indexOffset.
      cbn [firstn map List.concat shiftedIndices totalPositions fold_right].
      rewrite length_app.
      rewrite nth_error_app2 by (rewrite length_map; lia).
      rewrite length_map.
      replace (List.length (localIndices' font_ text0)
               + List.length
                   (List.concat (map (localIndices' font_) (firstn i rest)))
               + j - List.length (localIndices' font_ text0))%nat
        with (indexOffset font glyph createLayout createIndices font_ rest i + j)%nat
        by (unfold indexOffset; lia).
      rewrite (IH _ i j text k Hi Hj). unfold totalPositions.
      now rewrite Z.add_assoc.
Qed.

(** Offsets and scales past the last text play no part. *)
Lemma build_loop_firstn (fuel : nat) (font_ : font) (textArray : list string) :
  forall (offsets scales : list (list Q)) (i : nat) (st : Arrays),
    build_loop' fuel font_ textArray offsets scales i st
    = build_loop' fuel font_ textArray
        (firstn (i + List.length textArray) offsets)
        (firstn (i + List.length textArray) scales) i st.
Proof.
  induction textArray as [|text rest IH]; intros offsets scales i st.
  - reflexivity.
  - cbn [build_loop List.length]. unfold build_body.
    rewrite !nth_error_firstn.
    destruct (i <? i + S (List.length rest))%nat eqn:E;
      [|apply Nat.ltb_ge in E; lia].
    destruct (fillTypedArraySequence fround fuel _
                (TA.from fround Float32Array (nth_error offsets i)));
      cbn [bind]; try reflexivity.
    destruct (fillTypedArraySequence fround fuel _
                (TA.from fround Float32Array (nth_error scales i)));
      cbn [bind]; try reflexivity.
    rewrite IH.
    rewrite (IH (firstn (i + S (List.length rest)) offsets)
                (firstn (i + S (List.length rest)) scales)).
    rewrite !firstn_firstn.
    replace (Nat.min (S i + List.length rest) (i + S (List.length rest)))
      with (S i + List.length rest)%nat by lia.
    reflexivity.
Qed.

End BatchFacts.

(** * The properties of the specification *)

(** ** The broadcast fill *)

Lemma fill_while_throws_nothing (fuel : nat) (L : Z) (st : Z * Z * TypedArray)
      (e : Error) :
  fill_while fuel L st <> Throw e.
Proof.
  revert st. induction fuel as [|fuel IH]; intros [[p s] a]; cbn [fill_while];
    destruct (p <? L); try discriminate.
  apply IH.
Qed.

Lemma longBytes_length : TA.length longBytes = 2 ^ 31 + 1.
Proof. unfold longBytes. apply make_length. lia. Qed.

Lemma longerBytes_length : TA.length longerBytes = 2 ^ 31 + 2.
Proof. unfold longerBytes. apply make_length. lia. Qed.

(** X16: for every pattern P with 1 <= P.length <= L and a target of
    L <= 2^31 elements, the doubling-copy fill returns exactly what the
    naive reference returns (and never anything else): element j is
    P[j mod P.length] as the target stores it, that is P repeated
    L/P.length times when P.length divides L; when pattern and target have
    the same type the stored pattern is the pattern itself. *)
Theorem fill_equals_naive_repetition
        (fround : Q -> Q) (typedArray sequence : TypedArray) :
  1 <= TA.length sequence <= TA.length typedArray ->
  TA.length typedArray <= 2 ^ 31 ->
  (forall fuel : nat,
     (31 <= fuel)%nat ->
     fillTypedArraySequence fround fuel typedArray sequence
     = Return (naiveFill fround typedArray sequence))
  /\ (forall (fuel : nat) (result : TypedArray),
        fillTypedArraySequence fround fuel typedArray sequence = Return result ->
        result = naiveFill fround typedArray sequence)
  /\ (forall j : nat,
        (j < List.length (elements typedArray))%nat ->
        nth j (elements (naiveFill fround typedArray sequence)) 0%Q
        = nth (j mod List.length (elements sequence))%nat
              (TA.stored fround (constructor typedArray) sequence) 0%Q)
  /\ (forall k : nat,
        List.length (elements typedArray)
        = (k * List.length (elements sequence))%nat ->
        elements (naiveFill fround typedArray sequence)
        = List.concat
            (repeat (TA.stored fround (constructor typedArray) sequence) k))
  /\ (constructor sequence = constructor typedArray ->
      TA.stored fround (constructor typedArray) sequence = elements sequence).
Proof.
  intros Hseq HL.
  split; [intros fuel Hfuel; now apply fill_returns_naive|].
  split; [intros fuel result; now apply fill_returns_only_naive|].
  unfold naiveFill. cbn [elements]. repeat split.
  - intros j Hj. rewrite cycle_nth by assumption.
    now rewrite stored_length.
  - intros k Hk. rewrite Hk, <- (stored_length fround (constructor typedArray)).
    apply cycle_repeat.
  - apply stored_same.
Qed.

Lemma fill_equals_naive_repetition_witness :
  fillTypedArraySequence Quads.fround 31 (TA.make Float32Array 7) oneOffset
  = Return (mkTypedArray Float32Array
              [10; 20; 10; 20; 10; 20; 10]%Q).
Proof.
  apply (fill_equals_naive_repetition Quads.fround
           (TA.make Float32Array 7) oneOffset).
  - vm_compute. split; discriminate.
  - vm_compute. discriminate.
  - lia.
Defined.

(** C1, where the code fails it: a pattern of one byte fits a target of
    2^31 + 1 bytes, and the fill does not return the naive repetition: it
    never returns.  [sequenceLength <<= 1] is a 32-bit shift: 2^30 << 1 is
    -2^31, with which [position] falls from 2^31 back to 0 and
    [sequenceLength] becomes 0, and from then on the loop stands still. *)
Lemma fill_differs_past_int32 :
  1 <= TA.length oneByte <= TA.length longBytes /\
  forall (fround : Q -> Q) (fuel : nat),
    fillTypedArraySequence fround fuel longBytes oneByte = OutOfFuel /\
    fillTypedArraySequence fround fuel longBytes oneByte
    <> Return (naiveFill fround longBytes oneByte).
Proof.
  split.
  - rewrite longBytes_length. change (TA.length oneByte) with 1. lia.
  - intros fround fuel.
    rewrite (fill_wraps_around fround 32).
    + split; [reflexivity|discriminate].
    + rewrite longBytes_length. change (TA.length oneByte) with 1. lia.
    + rewrite longBytes_length. vm_compute. reflexivity.
Qed.

(** C7, as amended: the broadcast fill throws exactly when the pattern is
    longer than the target, and what it throws is the RangeError of the
    initial [set], before the loop; an empty pattern raises no error. *)
Theorem fill_throws_iff_oversized
        (fround : Q -> Q) (fuel : nat) (typedArray sequence : TypedArray)
        (e : Error) :
  fillTypedArraySequence fround fuel typedArray sequence = Throw e
  <-> e = RangeError /\ TA.length typedArray < TA.length sequence.
Proof.
  split.
  - intros H.
    destruct (Z_lt_le_dec (TA.length typedArray) (TA.length sequence)) as [Hlt|Hle].
    + rewrite fill_oversized_pattern in H by assumption.
      injection H as <-. now split.
    + exfalso. unfold fillTypedArraySequence in H.
      rewrite set_returns in H by lia. cbn [bind] in H.
      now apply fill_while_throws_nothing in H.
  - intros [-> Hlt]. now apply fill_oversized_pattern.
Qed.

(** C7 as the specification states it does not hold: an empty pattern
    violates the precondition, and no error is raised. *)
Lemma fill_empty_pattern_raises_nothing :
  ~ (1 <= TA.length noPattern <= TA.length (TA.make Float32Array 3)) /\
  forall (fround : Q -> Q) (fuel : nat) (e : Error),
    fillTypedArraySequence fround fuel (TA.make Float32Array 3) noPattern
    <> Throw e.
Proof.
  split.
  - vm_compute. intros [H _]. now apply H.
  - intros fround fuel e. rewrite fill_empty_pattern; [discriminate| |];
      vm_compute; reflexivity.
Qed.

(** X17: for every pattern with 1 <= pattern.length <= target length <=
    2^31 the loop ends within 31 passes, each pass that runs moving
    [position] strictly forward and not past the target length; for an
    empty pattern and a non-empty target a pass leaves the state as it
    was and the fill never returns. *)
Theorem fill_terminates_with_progress
        (fround : Q -> Q) (typedArray sequence : TypedArray) :
  (1 <= TA.length sequence <= TA.length typedArray ->
   TA.length typedArray <= 2 ^ 31 ->
   (forall fuel : nat, (31 <= fuel)%nat ->
      exists result : TypedArray,
        fillTypedArraySequence fround fuel typedArray sequence = Return result) /\
   (forall (a : TypedArray) (k : nat),
      (forall j : nat, (j <= k)%nat ->
         position_of (fill_state j (TA.length typedArray) (TA.length sequence) a)
         < TA.length typedArray) ->
      position_of (fill_state k (TA.length typedArray) (TA.length sequence) a)
      < position_of (fill_state (S k) (TA.length typedArray) (TA.length sequence) a)
      <= TA.length typedArray)) /\
  (TA.length sequence = 0 -> 0 < TA.length typedArray ->
   (forall a : TypedArray,
      fill_body (TA.length typedArray) (0, 0, a) = (0, 0, a)) /\
   (forall fuel : nat,
      fillTypedArraySequence fround fuel typedArray sequence = OutOfFuel)).
Proof.
  split.
  - intros Hn HL. split.
    + intros fuel Hfuel. eexists. apply fill_returns_naive; lia.
    + intros a k Hrun. unfold position_of, fill_state in *.
      rewrite !fill_state_control.
      destruct (fill_control_invariant (TA.length sequence)
                  (TA.length typedArray) k) as [H1 H2]; try lia.
      { intros j Hj. specialize (Hrun j). rewrite fill_state_control in Hrun.
        apply Hrun. lia. }
      specialize (Hrun k (Nat.le_refl k)). rewrite fill_state_control in Hrun.
      destruct H2 as [H2|H2]; [lia|].
      rewrite Nat.iter_succ.
      destruct (Nat.iter k (fill_control (TA.length typedArray))
                  (TA.length sequence, TA.length sequence)) as [p s].
      cbn [fst snd] in *.
      destruct (fill_control_progress (TA.length sequence)
                  (TA.length typedArray) p s) as [H3 _]; lia.
  - intros H0 Hpos. split.
    + intros a. unfold fill_body. change (0 + 0) with 0.
      destruct (0 >? TA.length typedArray) eqn:E; [lia|].
      now rewrite copyWithin_nothing, shl_0.
    + intros fuel. now apply fill_empty_pattern.
Qed.

Lemma fill_terminates_with_progress_witness :
  (exists result : TypedArray,
     fillTypedArraySequence Quads.fround 31 (TA.make Float32Array 7) oneOffset
     = Return result) /\
  fillTypedArraySequence Quads.fround 31 (TA.make Float32Array 3) noPattern
  = OutOfFuel.
Proof.
  split.
  - apply (fill_terminates_with_progress Quads.fround
             (TA.make Float32Array 7) oneOffset);
      [vm_compute; split; discriminate|vm_compute; discriminate|lia].
  - apply (fill_terminates_with_progress Quads.fround
             (TA.make Float32Array 3) noPattern);
      [reflexivity|reflexivity].
Defined.

(** C10, where the code fails it: a pattern of two bytes fits a target of
    2^31 + 2 bytes, and the loop does not end.  [position] reaches 2^31
    with [sequenceLength <<= 1] wrapped around to -2^31; the next pass
    moves [position] back to 0 and leaves [sequenceLength] 0, and no pass
    makes progress after that.  The defect is the one of C1. *)
Lemma fill_never_returns_past_int32 :
  1 <= TA.length twoBytes <= TA.length longerBytes /\
  forall (fround : Q -> Q) (fuel : nat),
    fillTypedArraySequence fround fuel longerBytes twoBytes = OutOfFuel.
Proof.
  split.
  - rewrite longerBytes_length. change (TA.length twoBytes) with 2. lia.
  - intros fround fuel. apply fill_pair_never_returns; [reflexivity|].
    rewrite longerBytes_length. lia.
Qed.

(** ** Concatenation *)

Lemma sum_lengths_concat (l : list TypedArray) :
  fold_right (fun b n => TA.length b + n) 0 l
  = Z.of_nat (List.length (List.concat (map elements l))).
Proof.
  induction l as [|b l IH]; [reflexivity|].
  cbn [fold_right map List.concat]. rewrite length_app, IH.
  unfold TA.length. lia.
Qed.

(** C4: for every non-empty sequence of same-typed buffers,
    [mergeTypedArrays] returns a buffer of that type whose length is the
    sum of the input lengths, in which each input buffer lies contiguously
    at the offset equal to the total length of the buffers before it, in
    input order; a single buffer comes back as an equal copy. *)
Theorem merge_concatenates_in_order
        (fround : Q -> Q) (first : TypedArray) (rest : list TypedArray) :
  Forall (fun b => constructor b = constructor first) rest ->
  exists result : TypedArray,
    mergeTypedArrays fround (first :: rest) = Return result /\
    constructor result = constructor first /\
    elements result = List.concat (map elements (first :: rest)) /\
    TA.length result
    = fold_right (fun b n => TA.length b + n) 0 (first :: rest) /\
    (forall (i : nat) (b : TypedArray),
       nth_error (first :: rest) i = Some b ->
       firstn (List.length (elements b))
         (skipn (Z.to_nat (fold_right (fun b n => TA.length b + n) 0
                             (firstn i (first :: rest))))
                (elements result))
       = elements b) /\
    (rest = [] -> result = first).
Proof.
  intros Hsame. eexists. split; [apply merge_returns_concatenate|].
  assert (Hall : Forall (fun b => constructor b = constructor first)
                        (first :: rest)) by now constructor.
  assert (Hel : elements (concatenate fround first rest)
                = List.concat (map elements (first :: rest))).
  { unfold concatenate. cbn [elements]. f_equal. apply map_ext_in.
    intros b Hb. apply stored_same.
    rewrite Forall_forall in Hall. now apply Hall. }
  split; [reflexivity|]. split; [exact Hel|]. split; [|split].
  - unfold TA.length at 1. now rewrite Hel, sum_lengths_concat.
  - intros i b Hi. rewrite Hel.
    destruct (nth_error_split _ _ Hi) as (l1 & l2 & Heq & Hlen).
    rewrite Heq at 2. rewrite map_app, concat_app.
    cbn [map List.concat].
    assert (Hpre : firstn i (first :: rest) = l1).
    { rewrite Heq. now apply firstn_app_exact. }
    rewrite Hpre, sum_lengths_concat, Nat2Z.id.
    rewrite skipn_app_exact by reflexivity.
    now apply firstn_app_exact.
  - intros ->. unfold concatenate. cbn [map List.concat].
    rewrite app_nil_r, stored_same by reflexivity. now destruct first.
Qed.

Lemma merge_concatenates_in_order_witness :
  exists result : TypedArray,
    mergeTypedArrays Quads.fround
      [mkTypedArray Uint16Array [0; 1; 2]%Q; mkTypedArray Uint16Array [];
       mkTypedArray Uint16Array [4; 5]%Q]
    = Return result /\
    elements result = [0; 1; 2; 4; 5]%Q.
Proof.
  destruct (merge_concatenates_in_order Quads.fround
              (mkTypedArray Uint16Array [0; 1; 2]%Q)
              [mkTypedArray Uint16Array []; mkTypedArray Uint16Array [4; 5]%Q])
    as (result & H1 & _ & H2 & _).
  - repeat constructor.
  - exists result. split; [exact H1|exact H2].
Defined.

(** C8, as amended: [mergeTypedArrays] raises no error on buffers of
    different element types; for every non-empty sequence it returns a
    buffer of the first buffer's type, holding the inputs in order, the
    elements of a buffer of another type converted to the first one's.
    Its one error is the TypeError of an empty sequence. *)
Theorem merge_converts_to_first_type
        (fround : Q -> Q) (first : TypedArray) (rest : list TypedArray) :
  mergeTypedArrays fround (first :: rest)
  = Return (mkTypedArray (constructor first)
              (List.concat
                 (map (fun b =>
                         if ArrayType_eqb (constructor b) (constructor first)
                         then elements b
                         else map (TA.convert fround (constructor first))
                                  (elements b))
                      (first :: rest))))
  /\ (forall e : Error, mergeTypedArrays fround (first :: rest) <> Throw e)
  /\ mergeTypedArrays fround [] = Throw TypeError.
Proof.
  rewrite merge_returns_concatenate. repeat split. discriminate.
Qed.

(** C8 as the specification states it does not hold: a Uint16Array and a
    Float32Array are merged into a Uint16Array, 1.5 stored as 1. *)
Lemma merge_of_mixed_types_returns :
  constructor (mkTypedArray Uint16Array [1%Q])
  <> constructor (mkTypedArray Float32Array [3 # 2]%Q) /\
  mergeTypedArrays Quads.fround
    [mkTypedArray Uint16Array [1%Q]; mkTypedArray Float32Array [3 # 2]%Q]
  = Return (mkTypedArray Uint16Array [1; 1]%Q).
Proof.
  split; [discriminate|reflexivity].
Qed.

(** ** The batch merge *)

Section BatchClaims.

Variable fround : Q -> Q.
Variable font : Type.
Variable glyph : Type.
Variable createLayout : font -> string -> Z -> string -> list glyph.
Variable getPositions : list glyph -> TypedArray.
Variable getUvs : list glyph -> Z -> Z -> bool -> TypedArray.
Variable createIndices : bool -> string -> Z -> list Q.

Local Abbreviation createTextAttributes' :=
  (createTextAttributes fround font glyph createLayout getPositions getUvs
                        createIndices).
Local Abbreviation positionsLength' :=
  (positionsLength fround font glyph createLayout getPositions getUvs
                   createIndices).
Local Abbreviation localIndices' := (localIndices font glyph createLayout createIndices).
Local Abbreviation totalPositions' :=
  (totalPositions fround font glyph createLayout getPositions getUvs createIndices).
Local Abbreviation priorVertices' :=
  (priorVertices fround font glyph createLayout getPositions getUvs createIndices).
Local Abbreviation indexOffset' := (indexOffset font glyph createLayout createIndices).
Local Abbreviation shiftedIndices' :=
  (shiftedIndices fround font glyph createLayout getPositions getUvs createIndices).
Local Abbreviation instances_fillable' :=
  (instances_fillable fround font glyph createLayout getPositions getUvs
                      createIndices).
Local Abbreviation indexes_to_last_vertex' :=
  (indexes_to_last_vertex fround font glyph createLayout getPositions getUvs
                          createIndices).
Local Abbreviation build_body' :=
  (build_body fround font glyph createLayout getPositions getUvs createIndices).
Local Abbreviation build_loop' :=
  (build_loop fround font glyph createLayout getPositions getUvs createIndices).
Local Abbreviation buildMergedText' :=
  (buildMergedText fround font glyph createLayout getPositions getUvs
                   createIndices).

(** Every merged index, located: the [j]-th local index of instance [i],
    of value [k], is stored at [indexOffset i + j] as
    [(k + priorVertices i) mod 2^16]. *)
Lemma merged_index_at (fuel : nat) (font_ : font) (textArray : list string)
      (offsets scales : list (list Q)) (merged : MergedText) :
  buildMergedText' fuel font_ textArray offsets scales = Return merged ->
  forall (i j : nat) (text : string) (k : Z),
    nth_error textArray i = Some text ->
    nth_error (localIndices' font_ text) j = Some k ->
    nth_error (elements (mergedIndices merged))
              (indexOffset' font_ textArray i + j)
    = Some (inject_Z ((k + priorVertices' font_ textArray i) mod 2 ^ 16)).
Proof.
  intros Hret i j text k Hi Hj.
  destruct (buildMergedText_inv fround font glyph createLayout getPositions
              getUvs createIndices fuel font_ textArray offsets scales merged
              Hret) as (_ & _ & ->).
  cbn [elements]. rewrite nth_error_map.
  rewrite (shiftedIndices_at fround font glyph createLayout getPositions getUvs
             createIndices font_ textArray 0 i j text k Hi Hj).
  reflexivity.
Qed.

(** C9: the index buffer of an instance is a Uint16Array, and the index
    rewriting works modulo 2^16: in whatever the batch merge returns, the
    stored merged index is the local index plus the vertices of the
    instances before it, reduced mod 65536, which is not the true shifted
    index once that sum reaches 65536.  (The merge does return, on one
    instance or more with an offset and a scale that fill each.) *)
Theorem merged_index_is_reduced_mod_65536
        (fuel : nat) (font_ : font) (textArray : list string)
        (offsets scales : list (list Q)) :
  ((31 <= fuel)%nat ->
   textArray <> [] ->
   instances_fillable' font_ textArray offsets scales 0 = true ->
   exists merged : MergedText,
     buildMergedText' fuel font_ textArray offsets scales = Return merged) /\
  forall merged : MergedText,
    buildMergedText' fuel font_ textArray offsets scales = Return merged ->
    forall (i j : nat) (text : string) (k : Z),
      nth_error textArray i = Some text ->
      nth_error (localIndices' font_ text) j = Some k ->
      constructor (indices (createTextAttributes' font_ text)) = Uint16Array /\
      nth_error (elements (mergedIndices merged))
                (indexOffset' font_ textArray i + j)
      = Some (inject_Z ((k + priorVertices' font_ textArray i) mod 65536)) /\
      (65536 <= k + priorVertices' font_ textArray i ->
       (k + priorVertices' font_ textArray i) mod 65536
       <> k + priorVertices' font_ textArray i).
Proof.
  split.
  - apply buildMergedText_returns.
  - intros merged Hret i j text k Hi Hj. split; [reflexivity|]. split.
    + exact (merged_index_at fuel font_ textArray offsets scales merged Hret
               i j text k Hi Hj).
    + intros Hbig Heq.
      pose proof (Z.mod_pos_bound (k + priorVertices' font_ textArray i) 65536).
      lia.
Qed.

Lemma priorVertices_nonneg (font_ : font) (textArray : list string) (i : nat) :
  0 <= priorVertices' font_ textArray i.
Proof.
  unfold priorVertices. apply Z.div_pos; [|lia].
  induction (firstn i textArray) as [|t l IH]; cbn [totalPositions fold_right].
  - lia.
  - pose proof (positionsLength_nonneg fround font glyph createLayout
                  getPositions getUvs createIndices font_ t).
    unfold totalPositions in IH. lia.
Qed.

(** C2, as amended: in whatever the batch merge returns, each local index
    of each instance appears in the merged index buffer, in place and in
    order, as itself plus the number of vertices of the instances before
    it, whenever the local index plus that number stays below 65536 (the
    shift is made on the instance's own Uint16Array, before the
    concatenation).  (The merge does return, on one instance or more with
    an offset and a scale that fill each.) *)
Theorem merged_index_is_shifted
        (fuel : nat) (font_ : font) (textArray : list string)
        (offsets scales : list (list Q)) :
  ((31 <= fuel)%nat ->
   textArray <> [] ->
   instances_fillable' font_ textArray offsets scales 0 = true ->
   exists merged : MergedText,
     buildMergedText' fuel font_ textArray offsets scales = Return merged) /\
  forall merged : MergedText,
    buildMergedText' fuel font_ textArray offsets scales = Return merged ->
    forall (i j : nat) (text : string) (k : Z),
      nth_error textArray i = Some text ->
      nth_error (localIndices' font_ text) j = Some k ->
      k + priorVertices' font_ textArray i < 65536 ->
      nth_error (elements (mergedIndices merged))
                (indexOffset' font_ textArray i + j)
      = Some (inject_Z (k + priorVertices' font_ textArray i)).
Proof.
  split.
  - apply buildMergedText_returns.
  - intros merged Hret i j text k Hi Hj Hsmall.
    rewrite (merged_index_at fuel font_ textArray offsets scales merged Hret
               i j text k Hi Hj).
    do 2 f_equal. apply Z.mod_small. split; [|exact Hsmall].
    assert (0 <= k < 2 ^ 16).
    { apply (localIndices_range font glyph createLayout createIndices font_ text).
      eapply nth_error_In. exact Hj. }
    pose proof (priorVertices_nonneg font_ textArray i). lia.
Qed.

Lemma totalPositions_nonneg (font_ : font) (textArray : list string) :
  0 <= totalPositions' font_ textArray.
Proof.
  induction textArray as [|t l IH]; cbn [totalPositions fold_right]; [lia|].
  pose proof (positionsLength_nonneg fround font glyph createLayout
                getPositions getUvs createIndices font_ t).
  unfold totalPositions in IH. lia.
Qed.

Lemma shiftedIndices_bounds (font_ : font) (textArray : list string) :
  forall before : Z,
    Forall (fun text => indexes_to_last_vertex' font_ text = true) textArray ->
    0 <= before -> before mod 2 = 0 ->
    before + totalPositions' font_ textArray <= 2 * 65536 ->
    Forall (fun x => before / 2 <= x
                     <= (before + totalPositions' font_ textArray) / 2 - 1)
           (shiftedIndices' font_ textArray before) /\
    (textArray <> [] ->
     In ((before + totalPositions' font_ textArray) / 2 - 1)
        (shiftedIndices' font_ textArray before)).
Proof.
  induction textArray as [|text rest IH]; intros before Hall Hb Heven Htotal.
  - split; [constructor|congruence].
  - inversion Hall as [|? ? Htext Hrest]; subst.
    unfold indexes_to_last_vertex in Htext. cbn zeta in Htext.
    apply andb_prop in Htext as [Htext Hlast].
    apply andb_prop in Htext as [HevenL Hbelow].
    apply Z.eqb_eq in HevenL.
    rewrite forallb_forall in Hbelow. apply existsb_exists in Hlast.
    destruct Hlast as (kl & Hkl & Hlast). apply Z.eqb_eq in Hlast.
    pose proof (localIndices_range font glyph createLayout createIndices
                  font_ text kl Hkl) as Hklr.
    pose proof (totalPositions_nonneg font_ rest) as Hrn.
    cbn [totalPositions fold_right shiftedIndices] in *.
    fold (totalPositions' font_ rest) in *.
    set (L := positionsLength' font_ text) in *.
    set (T := totalPositions' font_ rest) in *.
    assert (HL0 : 0 <= L)
      by apply (positionsLength_nonneg fround font glyph createLayout
                  getPositions getUvs createIndices).
    clearbody L.
    assert (Hmod : (before + L) mod 2 = 0)
      by (Z.to_euclidean_division_equations; lia).
    destruct (IH (before + L) Hrest ltac:(lia) Hmod ltac:(lia)) as [IH1 IH2].
    assert (Hshift : forall k, In k (localIndices' font_ text) ->
                       (k + before / 2) mod 2 ^ 16 = k + before / 2
                       /\ 0 <= k < L / 2).
    { intros k Hk.
      pose proof (localIndices_range font glyph createLayout createIndices
                    font_ text k Hk).
      specialize (Hbelow k Hk). apply Z.ltb_lt in Hbelow.
      split; [|lia]. apply Z.mod_small.
      Z.to_euclidean_division_equations. lia. }
    split.
    + apply Forall_app. split.
      * apply Forall_forall. intros x Hx. apply in_map_iff in Hx.
        destruct Hx as (k & <- & Hk). destruct (Hshift k Hk) as [-> Hk'].
        Z.to_euclidean_division_equations. lia.
      * eapply Forall_impl; [|exact IH1]. cbn beta. intros x Hx.
        replace (before + (L + T)) with (before + L + T) by lia.
        Z.to_euclidean_division_equations. lia.
    + intros _. apply in_or_app. destruct rest as [|text1 rest1].
      * left. apply in_map_iff. exists kl. split; [|assumption].
        destruct (Hshift kl Hkl) as [-> _].
        unfold T. cbn [totalPositions fold_right].
        Z.to_euclidean_division_equations. lia.
      * right. replace (before + (L + T)) with (before + L + T) by lia.
        apply IH2. discriminate.
Qed.

(** C3, as amended: for one instance or more, each with an offset and a
    scale that fill its buffers, the batch merge returns; and whenever it
    returns, the local indices of each instance staying below its vertex
    count and reaching its last vertex, with 65536 vertices at most in
    all, the merged index buffer holds no value below 0 or above the
    merged vertex count minus 1, and holds that value. *)
Theorem merged_index_maximum
        (fuel : nat) (font_ : font) (textArray : list string)
        (offsets scales : list (list Q)) :
  ((31 <= fuel)%nat ->
   textArray <> [] ->
   instances_fillable' font_ textArray offsets scales 0 = true ->
   exists merged : MergedText,
     buildMergedText' fuel font_ textArray offsets scales = Return merged) /\
  forall merged : MergedText,
    buildMergedText' fuel font_ textArray offsets scales = Return merged ->
    Forall (fun text => indexes_to_last_vertex' font_ text = true) textArray ->
    TA.length (mergedPositions merged) <= 2 * 65536 ->
    Forall (fun x =>
              (0 <= x)%Q /\
              (x <= inject_Z (TA.length (mergedPositions merged) / 2 - 1))%Q)
           (elements (mergedIndices merged)) /\
    In (inject_Z (TA.length (mergedPositions merged) / 2 - 1))
       (elements (mergedIndices merged)).
Proof.
  split.
  - apply buildMergedText_returns.
  - intros merged Hret Hall Htotal.
    destruct (buildMergedText_inv fround font glyph createLayout getPositions
                getUvs createIndices fuel font_ textArray offsets scales merged
                Hret) as (Hne & Hpos & Hidx).
    rewrite Hpos in *. rewrite Hidx. cbn [elements].
    destruct (shiftedIndices_bounds font_ textArray 0 Hall) as [B1 B2];
      try reflexivity; try lia.
    cbn [Z.add] in B1, B2. split.
    + apply Forall_forall. intros x Hx. apply in_map_iff in Hx.
      destruct Hx as (z & <- & Hz).
      rewrite Forall_forall in B1. specialize (B1 z Hz).
      change 0%Q with (inject_Z 0). rewrite <- !Zle_Qle.
      change (0 / 2) with 0 in B1. lia.
    + apply in_map. now apply B2.
Qed.

(** C5: for an instance of [v] vertices (a position buffer of [2 v]
    coordinates) with a two-component offset and a two-component scale,
    whenever the loop body returns, the offsets and scales buffers it
    pushes have the length of the positions buffer and hold the
    instance's pair, as float32 values, once per vertex; and it does
    return when the instance has one vertex at least (and 2^30 at most). *)
Theorem instance_offsets_and_scales
        (fuel : nat) (font_ : font) (offsets scales : list (list Q))
        (i : nat) (text : string) (st : Arrays) (ox oy sx sy : Q) (v : Z) :
  nth_error offsets i = Some [ox; oy] ->
  nth_error scales i = Some [sx; sy] ->
  positionsLength' font_ text = 2 * v ->
  (1 <= v <= 2 ^ 30 -> (31 <= fuel)%nat ->
   exists st' : Arrays,
     build_body' fuel font_ offsets scales i text st = Return st') /\
  forall st' : Arrays,
    build_body' fuel font_ offsets scales i text st = Return st' ->
    exists offsetsBuffer scalesBuffer : TypedArray,
      st' = mkArrays
              (maxIndex st + vertexCount (createTextAttributes' font_ text))%Q
              (positionsArrays st ++ [positions (createTextAttributes' font_ text)])
              (uvsArrays st ++ [uvs (createTextAttributes' font_ text)])
              (indicesArrays st
               ++ [add_maxIndex fround (indices (createTextAttributes' font_ text))
                     (maxIndex st)])
              (offsetsArrays st ++ [offsetsBuffer])
              (scalesArrays st ++ [scalesBuffer]) /\
      TA.length offsetsBuffer
      = TA.length (positions (createTextAttributes' font_ text)) /\
      TA.length scalesBuffer
      = TA.length (positions (createTextAttributes' font_ text)) /\
      elements offsetsBuffer
      = List.concat (repeat [fround ox; fround oy] (Z.to_nat v)) /\
      elements scalesBuffer
      = List.concat (repeat [fround sx; fround sy] (Z.to_nat v)).
Proof.
  intros Ho Hs HL. split.
  - intros Hv Hfuel.
    assert (Hfillable : forall p q : Q,
              fillable (positionsLength' font_ text) (Some [p; q]) = true).
    { intros p q. unfold fillable. cbn [List.length]. rewrite HL.
      rewrite !andb_true_iff, !Z.leb_le. lia. }
    unfold build_body.
    rewrite !(fill_pattern_returns fround font glyph createLayout getPositions
                getUvs createIndices)
      by (rewrite ?Ho, ?Hs; auto).
    cbn [bind]. eexists. reflexivity.
  - intros st' Hret.
    apply (build_body_inv fround font glyph createLayout getPositions getUvs
             createIndices) in Hret.
    destruct Hret as (ob & sb & -> & Hob & Hsb).
    exists ob, sb. split; [reflexivity|].
    rewrite Ho in Hob. rewrite Hs in Hsb.
    pose proof (target_length fround font glyph createLayout getPositions
                  getUvs createIndices font_ text) as Htarget.
    pose proof (positionsLength_nonneg fround font glyph createLayout
                  getPositions getUvs createIndices font_ text) as Hnn.
    assert (Hpair : forall p q : Q,
              TA.length (TA.from fround Float32Array (Some [p; q])) = 2)
      by reflexivity.
    destruct (Z_lt_le_dec v 1) as [Hv0|Hv1].
    { rewrite fill_oversized_pattern in Hob; [discriminate|].
      rewrite Htarget, Hpair. lia. }
    destruct (Z_lt_le_dec (2 ^ 30) v) as [Hbig|Hv2].
    { rewrite fill_pair_never_returns in Hob; [discriminate|reflexivity|].
      rewrite Htarget. lia. }
    apply fill_returns_only_naive in Hob; [|rewrite Htarget, Hpair; lia
                                          |rewrite Htarget; lia].
    apply fill_returns_only_naive in Hsb; [|rewrite Htarget, Hpair; lia
                                          |rewrite Htarget; lia].
    assert (Hcycle : forall p q : Q,
              cycle [p; q] (Z.to_nat (positionsLength' font_ text))
              = List.concat (repeat [p; q] (Z.to_nat v))).
    { intros p q. rewrite <- cycle_repeat. f_equal. cbn [List.length].
      rewrite HL. lia. }
    assert (Hel : forall patterns n p q,
              nth_error patterns n = Some [p; q] ->
              elements
                (naiveFill fround
                   (TA.make Float32Array
                      (truncate (vertexCount (createTextAttributes' font_ text) * 2)%Q))
                   (TA.from fround Float32Array (Some [p; q])))
              = List.concat (repeat [fround p; fround q] (Z.to_nat v))).
    { intros patterns n p q Hn. rewrite <- Hn.
      rewrite (naiveFill_elements fround font glyph createLayout getPositions
                 getUvs createIndices).
      unfold patternOf. rewrite Hn. cbn [TA.from elements map TA.convert].
      apply Hcycle. }
    subst ob sb. unfold TA.length at 1 3.
    rewrite (Hel offsets i ox oy Ho), (Hel scales i sx sy Hs).
    rewrite <- !Hcycle, !cycle_length. unfold positionsLength in *.
    repeat split; lia.
Qed.

(** C6, as amended: [buildMergedText] does not compare the lengths of its
    three sequences, and raises no error of its own for them: the entries
    of [offsets] and [scales] past the last text are not read, so that the
    call does what the call without them does. *)
Theorem buildMergedText_ignores_surplus
        (fuel : nat) (font_ : font) (textArray : list string)
        (offsets scales : list (list Q)) :
  buildMergedText' fuel font_ textArray offsets scales
  = buildMergedText' fuel font_ textArray
      (firstn (List.length textArray) offsets)
      (firstn (List.length textArray) scales).
Proof.
  unfold buildMergedText.
  rewrite (build_loop_firstn fround font glyph createLayout getPositions getUvs
             createIndices fuel font_ textArray offsets scales 0).
  reflexivity.
Qed.

End BatchClaims.

(** ** The batch merge on explicit inputs *)

Lemma merged_index_is_shifted_witness :
  exists merged : MergedText,
    Points.buildMergedText 31 tt ["abcd"; "abcdef"]%string
      [[10; 20]; [1; 2]]%Q [[2; 2]; [3; 3]]%Q
    = Return merged /\
    nth_error (elements (mergedIndices merged)) (4 + 0) = Some (inject_Z (0 + 4)) /\
    nth_error (elements (mergedIndices merged)) (4 + 5) = Some (inject_Z (5 + 4)).
Proof.
  destruct (merged_index_is_shifted Points.fround Points.font Points.glyph
              Points.createLayout Points.getPositions Points.getUvs
              Points.createIndices 31 tt ["abcd"; "abcdef"]%string
              [[10; 20]; [1; 2]]%Q [[2; 2]; [3; 3]]%Q)
    as [Hex Hat].
  destruct Hex as [merged Hret];
    [lia|discriminate|vm_compute; reflexivity|].
  exists merged. split; [exact Hret|]. split.
  - apply (Hat merged Hret 1%nat 0%nat "abcdef"%string 0);
      [reflexivity|reflexivity|vm_compute; reflexivity].
  - apply (Hat merged Hret 1%nat 5%nat "abcdef"%string 5);
      [reflexivity|reflexivity|vm_compute; reflexivity].
Defined.

Lemma longBatch_returns :
  exists merged : MergedText,
    Quads.buildMergedText 31 tt Quads.longBatch
      [[0; 0]; [0; 0]]%Q [[1; 1]; [1; 1]]%Q
    = Return merged.
Proof.
  apply buildMergedText_returns;
    [lia|discriminate|vm_compute; reflexivity].
Qed.

(** C2 as the specification states it does not hold: after an instance of
    65536 vertices, local index 0 of the next instance is stored as 0, not
    as 65536. *)
Lemma merged_index_wraps_around :
  exists merged : MergedText,
    Quads.buildMergedText 31 tt Quads.longBatch
      [[0; 0]; [0; 0]]%Q [[1; 1]; [1; 1]]%Q
    = Return merged /\
    nth_error (Quads.localIndices tt "a"%string) 0 = Some 0 /\
    Quads.priorVertices tt Quads.longBatch 1 = 65536 /\
    nth_error (elements (mergedIndices merged))
              (Quads.indexOffset tt Quads.longBatch 1 + 0)
    = Some (inject_Z 0) /\
    inject_Z 0 <> inject_Z (0 + 65536).
Proof.
  destruct longBatch_returns as [merged Hret].
  assert (Hprior : Quads.priorVertices tt Quads.longBatch 1 = 65536)
    by (vm_compute; reflexivity).
  assert (Hi : nth_error Quads.longBatch 1 = Some "a"%string)
    by reflexivity.
  assert (Hj : nth_error (Quads.localIndices tt "a"%string) 0 = Some 0)
    by reflexivity.
  exists merged. split; [exact Hret|]. split; [exact Hj|].
  split; [exact Hprior|]. split; [|discriminate].
  pose proof (merged_index_at Quads.fround Quads.font Quads.glyph
                Quads.createLayout Quads.getPositions Quads.getUvs
                Quads.createIndices 31 tt Quads.longBatch
                [[0; 0]; [0; 0]]%Q [[1; 1]; [1; 1]]%Q merged Hret
                1%nat 0%nat "a"%string 0 Hi Hj) as Hstored.
  rewrite Hprior in Hstored. exact Hstored.
Qed.

Lemma merged_index_is_reduced_mod_65536_witness :
  exists merged : MergedText,
    Quads.buildMergedText 31 tt Quads.longBatch
      [[0; 0]; [0; 0]]%Q [[1; 1]; [1; 1]]%Q
    = Return merged /\
    nth_error (elements (mergedIndices merged))
              (Quads.indexOffset tt Quads.longBatch 1 + 5)
    = Some (inject_Z ((3 + Quads.priorVertices tt Quads.longBatch 1) mod 65536)).
Proof.
  destruct (merged_index_is_reduced_mod_65536 Quads.fround Quads.font Quads.glyph
              Quads.createLayout Quads.getPositions Quads.getUvs
              Quads.createIndices 31 tt Quads.longBatch
              [[0; 0]; [0; 0]]%Q [[1; 1]; [1; 1]]%Q)
    as [Hex Hat].
  destruct Hex as [merged Hret];
    [lia|discriminate|vm_compute; reflexivity|].
  assert (Hi : nth_error Quads.longBatch 1 = Some "a"%string)
    by reflexivity.
  assert (Hj : nth_error (Quads.localIndices tt "a"%string) 5 = Some 3)
    by reflexivity.
  exists merged. split; [exact Hret|].
  exact (proj1 (proj2 (Hat merged Hret 1%nat 5%nat "a"%string 3 Hi Hj))).
Defined.

(** C3 as the specification states it does not hold: with no instance at all
    the batch merge throws, [typedArrays[0]] being undefined in
    [mergeTypedArrays]. *)
Lemma merge_of_no_instance_throws :
  Quads.buildMergedText 31 tt [] [] [] = Throw TypeError.
Proof. reflexivity. Qed.

Lemma merged_index_maximum_witness :
  exists merged : MergedText,
    Quads.buildMergedText 31 tt ["ab"; "c d"]%string
      [[10; 20]; [1; 2]]%Q [[2; 2]; [3; 3]]%Q
    = Return merged /\
    TA.length (mergedPositions merged) / 2 = 16 /\
    In (inject_Z 15) (elements (mergedIndices merged)).
Proof.
  destruct (merged_index_maximum Quads.fround Quads.font Quads.glyph
              Quads.createLayout Quads.getPositions Quads.getUvs
              Quads.createIndices 31 tt ["ab"; "c d"]%string
              [[10; 20]; [1; 2]]%Q [[2; 2]; [3; 3]]%Q)
    as [Hex Hmax].
  destruct Hex as [merged Hret];
    [lia|discriminate|vm_compute; reflexivity|].
  pose proof Hret as Hval. vm_compute in Hval. injection Hval as <-.
  destruct (Hmax _ Hret) as [_ Hin].
  - repeat constructor.
  - vm_compute. discriminate.
  - eexists. split; [exact Hret|]. split; [reflexivity|exact Hin].
Defined.

Lemma instance_offsets_and_scales_witness :
  exists offsetsBuffer scalesBuffer : TypedArray,
    (exists st : Arrays,
       Points.build_body 31 tt [[10; 20]]%Q [[2; 2]]%Q 0 "abc"%string
         (mkArrays 0 [] [] [] [] [])
       = Return st /\
       offsetsArrays st = [offsetsBuffer] /\ scalesArrays st = [scalesBuffer]) /\
    elements offsetsBuffer = [10; 20; 10; 20; 10; 20]%Q /\
    elements scalesBuffer = [2; 2; 2; 2; 2; 2]%Q.
Proof.
  destruct (instance_offsets_and_scales Points.fround Points.font Points.glyph
              Points.createLayout Points.getPositions Points.getUvs
              Points.createIndices 31 tt [[10; 20]]%Q [[2; 2]]%Q 0 "abc"%string
              (mkArrays 0 [] [] [] [] []) 10%Q 20%Q 2%Q 2%Q 3)
    as [Hex Hall]; [reflexivity|reflexivity|reflexivity|].
  destruct Hex as [st Hst]; [lia|lia|].
  destruct (Hall st Hst) as (offsetsBuffer & scalesBuffer & Heq & _ & _ & Ho & Hs).
  exists offsetsBuffer, scalesBuffer. split; [|split; [exact Ho|exact Hs]].
  exists st. split; [exact Hst|]. rewrite Heq. split; reflexivity.
Defined.

(** C6 as the specification states it does not hold: one text, two offsets
    and one scale, and the batch merge returns. *)
Lemma merge_of_mismatched_lengths_returns :
  List.length [[10; 20]; [1; 2]]%Q <> List.length ["a"%string] /\
  exists merged : MergedText,
    Quads.buildMergedText 31 tt ["a"%string] [[10; 20]; [1; 2]]%Q [[2; 2]]%Q
    = Return merged.
Proof.
  split; [discriminate|]. eexists. vm_compute. reflexivity.
Qed.

(** * Further properties of the engine *)

(** ** The broadcast fill keeps the target's shape *)

Section FillShape.

Variable fround : Q -> Q.

Lemma set_keeps_shape (target source r : TypedArray) (offset : Z) :
  TA.set fround target source offset = Return r ->
  TA.length r = TA.length target /\ constructor r = constructor target.
Proof.
  unfold TA.set.
  destruct (offset <? 0) eqn:E0; cbn [orb]; [discriminate|].
  destruct (TA.length source + offset >? TA.length target) eqn:E1; [discriminate|].
  intros H. injection H as <-. split; [|reflexivity].
  unfold TA.length in *. cbn [elements].
  rewrite !length_app, length_firstn, length_skipn, stored_length. lia.
Qed.

Lemma copyWithin_constructor (a : TypedArray) (target start end_ : Z) :
  constructor (TA.copyWithin a target start end_) = constructor a.
Proof.
  unfold TA.copyWithin. now destruct (0 <? Z.min _ _).
Qed.

Lemma fill_while_keeps_shape (fuel : nat) (L : Z) :
  forall (p s : Z) (a r : TypedArray),
    fill_while fuel L (p, s, a) = Return r ->
    TA.length r = TA.length a /\ constructor r = constructor a.
Proof.
  induction fuel as [|fuel IH]; intros p s a r H; cbn [fill_while] in H;
    destruct (p <? L); try discriminate;
    try (injection H as <-; now split).
  unfold fill_body in H. apply IH in H as [H1 H2].
  now rewrite copyWithin_length in H1; rewrite copyWithin_constructor in H2.
Qed.

Lemma fill_keeps_shape (fuel : nat) (typedArray sequence r : TypedArray) :
  fillTypedArraySequence fround fuel typedArray sequence = Return r ->
  TA.length r = TA.length typedArray /\ constructor r = constructor typedArray.
Proof.
  unfold fillTypedArraySequence.
  destruct (TA.set fround typedArray sequence 0) as [a| |] eqn:Eset;
    cbn [bind]; try discriminate.
  intros H. apply fill_while_keeps_shape in H as [H1 H2].
  apply set_keeps_shape in Eset as [H3 H4]. split; congruence.
Qed.

Lemma fill_throws_only_RangeError (fuel : nat) (typedArray sequence : TypedArray)
      (e : Error) :
  fillTypedArraySequence fround fuel typedArray sequence = Throw e ->
  e = RangeError /\ TA.length typedArray < TA.length sequence.
Proof.
  unfold fillTypedArraySequence, TA.set.
  destruct (0 <? 0) eqn:E0; [lia|]. cbn [orb].
  destruct (TA.length sequence + 0 >? TA.length typedArray) eqn:E1; cbn [bind].
  - intros H. injection H as <-. split; [reflexivity|lia].
  - intros H. now apply fill_while_throws_nothing in H.
Qed.

Lemma fill_of_nothing (fuel : nat) (typedArray sequence : TypedArray) :
  TA.length typedArray = 0 -> TA.length sequence = 0 ->
  exists r, fillTypedArraySequence fround fuel typedArray sequence = Return r.
Proof.
  intros HL Hn. unfold fillTypedArraySequence.
  rewrite set_returns by lia. cbn [bind]. rewrite HL, Hn.
  eexists. destruct fuel; cbn [fill_while]; reflexivity.
Qed.

Lemma naiveFill_shape (typedArray other sequence : TypedArray) :
  constructor other = constructor typedArray ->
  TA.length other = TA.length typedArray ->
  naiveFill fround other sequence = naiveFill fround typedArray sequence.
Proof.
  intros HC HL. unfold naiveFill. rewrite HC. f_equal. f_equal.
  unfold TA.length in HL. lia.
Qed.

Lemma naiveFill_length (typedArray sequence : TypedArray) :
  TA.length (naiveFill fround typedArray sequence) = TA.length typedArray.
Proof.
  unfold naiveFill, TA.length. cbn [elements]. now rewrite cycle_length.
Qed.

(** X1: whenever [fillTypedArraySequence] returns, whatever the pattern
    and the fuel, what it returns has the length and the type of the
    target it was given. *)
Theorem fill_keeps_length_and_type
        (fuel : nat) (typedArray sequence r : TypedArray) :
  fillTypedArraySequence fround fuel typedArray sequence = Return r ->
  TA.length r = TA.length typedArray /\ constructor r = constructor typedArray.
Proof. apply fill_keeps_shape. Qed.

(** X2: for a pattern that fits (1 <= pattern.length <= target.length <=
    2^31) the fill overwrites the whole target: what it returns does not
    depend on what the target held (another target of the same type and
    length gives the same result), and filling the result once more with
    the same pattern leaves it as it is. *)
Theorem fill_overwrites_the_target
        (fuel : nat) (typedArray sequence : TypedArray) :
  (31 <= fuel)%nat ->
  1 <= TA.length sequence <= TA.length typedArray ->
  TA.length typedArray <= 2 ^ 31 ->
  exists r : TypedArray,
    fillTypedArraySequence fround fuel typedArray sequence = Return r /\
    (forall other : TypedArray,
        constructor other = constructor typedArray ->
        TA.length other = TA.length typedArray ->
        fillTypedArraySequence fround fuel other sequence = Return r) /\
    fillTypedArraySequence fround fuel r sequence = Return r.
Proof.
  intros Hfuel Hn HL. exists (naiveFill fround typedArray sequence).
  split; [now apply fill_returns_naive|]. split.
  - intros other HC Hlen.
    rewrite fill_returns_naive by (rewrite ?Hlen; assumption).
    now rewrite (naiveFill_shape typedArray other).
  - rewrite fill_returns_naive by (rewrite ?naiveFill_length; assumption).
    now rewrite (naiveFill_shape typedArray) by (try apply naiveFill_length; reflexivity).
Qed.

(** X3: over a target of more than 2^31 elements, the fill with a
    pattern whose length is a power of two up to 2^30 (1, 2, 4, ...) never
    returns: [sequenceLength <<= 1] wraps around to -2^31 and then to 0,
    after which the loop stands still. *)
Theorem fill_power_of_two_never_returns
        (fuel j : nat) (typedArray sequence : TypedArray) :
  (j <= 30)%nat ->
  TA.length sequence = 2 ^ Z.of_nat j ->
  2 ^ 31 < TA.length typedArray ->
  fillTypedArraySequence fround fuel typedArray sequence = OutOfFuel.
Proof.
  intros Hj Hn HL.
  assert (Hle : TA.length sequence <= 2 ^ 30).
  { rewrite Hn. apply Z.pow_le_mono_r; lia. }
  apply (fill_wraps_around fround (32 - j)); [lia|].
  rewrite Hn. apply (reaches_standstill_longer (32 - j) (2 ^ 31 + 1)); [lia|].
  clear - Hj.
  do 31 (destruct j as [|j]; [vm_compute; reflexivity|]). lia.
Qed.

End FillShape.

(** ** Concatenation of concatenations *)

(** X4: [mergeTypedArrays] composes.  For buffers of one type, merging
    the results of two merges returns what the merge of the two sequences
    put one after the other returns. *)
Theorem merge_of_merged_parts
        (fround : Q -> Q) (C : ArrayType) (first second : list TypedArray)
        (mergedFirst mergedSecond : TypedArray) :
  Forall (fun a => constructor a = C) first ->
  Forall (fun a => constructor a = C) second ->
  mergeTypedArrays fround first = Return mergedFirst ->
  mergeTypedArrays fround second = Return mergedSecond ->
  mergeTypedArrays fround [mergedFirst; mergedSecond]
  = mergeTypedArrays fround (first ++ second).
Proof.
  intros H1 H2 M1 M2.
  destruct first as [|a1 l1]; [discriminate|].
  destruct second as [|a2 l2]; [discriminate|].
  rewrite merge_returns_all in M1, M2 by discriminate.
  rewrite (concatenate_all_same fround C) in M1, M2 by (auto; discriminate).
  injection M1 as <-. injection M2 as <-.
  rewrite !merge_returns_all by discriminate.
  rewrite !(concatenate_all_same fround C);
    try discriminate.
  - cbn [map elements List.concat]. rewrite map_app, concat_app, app_nil_r.
    reflexivity.
  - apply Forall_app. now split.
  - repeat constructor.
Qed.

(** ** The batch merge, channel by channel *)

Section BatchChannelFacts.

Variable fround : Q -> Q.
Variable font : Type.
Variable glyph : Type.
Variable createLayout : font -> string -> Z -> string -> list glyph.
Variable getPositions : list glyph -> TypedArray.
Variable getUvs : list glyph -> Z -> Z -> bool -> TypedArray.
Variable createIndices : bool -> string -> Z -> list Q.

Local Abbreviation createTextAttributes' :=
  (createTextAttributes fround font glyph createLayout getPositions getUvs
                        createIndices).
Local Abbreviation positionsLength' :=
  (positionsLength fround font glyph createLayout getPositions getUvs
                   createIndices).
Local Abbreviation localIndices' := (localIndices font glyph createLayout createIndices).
Local Abbreviation totalPositions' :=
  (totalPositions fround font glyph createLayout getPositions getUvs createIndices).
Local Abbreviation shiftedIndices' :=
  (shiftedIndices fround font glyph createLayout getPositions getUvs createIndices).
Local Abbreviation instances_fillable' :=
  (instances_fillable fround font glyph createLayout getPositions getUvs
                      createIndices).
Local Abbreviation broadcasts' :=
  (broadcasts fround font glyph createLayout getPositions getUvs createIndices).
Local Abbreviation build_body' :=
  (build_body fround font glyph createLayout getPositions getUvs createIndices).
Local Abbreviation build_loop' :=
  (build_loop fround font glyph createLayout getPositions getUvs createIndices).
Local Abbreviation buildMergedText' :=
  (buildMergedText fround font glyph createLayout getPositions getUvs
                   createIndices).

(** The loop over a batch in two parts. *)
Lemma build_loop_app (fuel : nat) (font_ : font) (first second : list string)
      (offsets scales : list (list Q)) :
  forall (i : nat) (st : Arrays),
    build_loop' fuel font_ (first ++ second) offsets scales i st
    = (st' <- build_loop' fuel font_ first offsets scales i st ;;
       build_loop' fuel font_ second offsets scales (i + List.length first) st').
Proof.
  induction first as [|text rest IH]; intros i st.
  - cbn [app build_loop bind List.length]. now rewrite Nat.add_0_r.
  - cbn [app build_loop List.length].
    destruct (build_body' fuel font_ offsets scales i text st) as [st1| |];
      cbn [bind]; try reflexivity.
    rewrite IH. now rewrite Nat.add_succ_r.
Qed.

(** When the batch merge returns, the loop has returned, there was an
    instance, and each merged buffer is the concatenation of the arrays
    the loop has collected. *)
Lemma buildMergedText_merges (fuel : nat) (font_ : font) (textArray : list string)
      (offsets scales : list (list Q)) (merged : MergedText) :
  buildMergedText' fuel font_ textArray offsets scales = Return merged ->
  textArray <> [] /\
  exists st : Arrays,
    build_loop' fuel font_ textArray offsets scales 0 (mkArrays 0 [] [] [] [] [])
    = Return st /\
    merged = mkMergedText (concatenate_all fround (positionsArrays st))
                          (concatenate_all fround (uvsArrays st))
                          (concatenate_all fround (indicesArrays st))
                          (concatenate_all fround (offsetsArrays st))
                          (concatenate_all fround (scalesArrays st)) /\
    offsetsArrays st <> [] /\ scalesArrays st <> [] /\
    positionsArrays st <> [] /\ uvsArrays st <> [].
Proof.
  unfold buildMergedText. intros H.
  destruct (build_loop' fuel font_ textArray offsets scales 0
              (mkArrays 0 [] [] [] [] [])) as [st| |] eqn:Eloop;
    cbn [bind] in H; try discriminate.
  destruct (build_loop_inv fround font glyph createLayout getPositions getUvs
              createIndices fuel font_ textArray offsets scales 0 _ st 0 Eloop)
    as ((L1 & L2 & L3 & L4 & L5) & _); [reflexivity|lia|constructor|].
  cbn [positionsArrays uvsArrays indicesArrays offsetsArrays scalesArrays
       List.length Nat.add] in *.
  destruct textArray as [|text rest].
  { cbn [build_loop] in Eloop. injection Eloop as <-.
    cbn [positionsArrays mergeTypedArrays bind] in H. discriminate. }
  cbn [List.length] in *.
  assert (N1 : positionsArrays st <> [])
    by (intros E; rewrite E in L1; cbn in L1; lia).
  assert (N2 : uvsArrays st <> [])
    by (intros E; rewrite E in L2; cbn in L2; lia).
  assert (N3 : indicesArrays st <> [])
    by (intros E; rewrite E in L3; cbn in L3; lia).
  assert (N4 : offsetsArrays st <> [])
    by (intros E; rewrite E in L4; cbn in L4; lia).
  assert (N5 : scalesArrays st <> [])
    by (intros E; rewrite E in L5; cbn in L5; lia).
  rewrite !merge_returns_all in H by assumption. cbn [bind] in H.
  injection H as <-.
  split; [discriminate|]. exists st. repeat split; assumption.
Qed.

(** The position and uv buffers are collected as they come. *)
Lemma build_loop_positions (fuel : nat) (font_ : font) (textArray : list string)
      (offsets scales : list (list Q)) :
  forall (i : nat) (st st' : Arrays),
    build_loop' fuel font_ textArray offsets scales i st = Return st' ->
    positionsArrays st'
    = positionsArrays st
      ++ map (fun text => positions (createTextAttributes' font_ text)) textArray /\
    uvsArrays st'
    = uvsArrays st
      ++ map (fun text => uvs (createTextAttributes' font_ text)) textArray.
Proof.
  induction textArray as [|text rest IH]; intros i st st' H.
  - cbn [build_loop] in H. injection H as <-. cbn [map]. now rewrite !app_nil_r.
  - cbn [build_loop] in H.
    destruct (build_body' fuel font_ offsets scales i text st) as [st1| |] eqn:Eb;
      cbn [bind] in H; try discriminate.
    apply build_body_inv in Eb as (ob & sb & -> & _ & _).
    apply IH in H as [H1 H2]. cbn [positionsArrays uvsArrays] in *.
    rewrite H1, H2, <- !app_assoc. now split.
Qed.

(** The offset and scale buffers are Float32Arrays as long as the
    position buffers. *)
Lemma build_loop_aligned (fuel : nat) (font_ : font) (textArray : list string)
      (offsets scales : list (list Q)) :
  forall (i : nat) (st st' : Arrays),
    build_loop' fuel font_ textArray offsets scales i st = Return st' ->
    Forall (fun b => constructor b = Float32Array) (offsetsArrays st) ->
    Forall (fun b => constructor b = Float32Array) (scalesArrays st) ->
    (Forall (fun b => constructor b = Float32Array) (offsetsArrays st') /\
     Forall (fun b => constructor b = Float32Array) (scalesArrays st')) /\
    fold_right (fun b n => TA.length b + n) 0 (offsetsArrays st')
    = fold_right (fun b n => TA.length b + n) 0 (offsetsArrays st)
      + totalPositions' font_ textArray /\
    fold_right (fun b n => TA.length b + n) 0 (scalesArrays st')
    = fold_right (fun b n => TA.length b + n) 0 (scalesArrays st)
      + totalPositions' font_ textArray.
Proof.
  induction textArray as [|text rest IH]; intros i st st' H Ho Hs.
  - cbn [build_loop] in H. injection H as <-.
    cbn [totalPositions fold_right]. repeat split; auto; lia.
  - cbn [build_loop] in H.
    destruct (build_body' fuel font_ offsets scales i text st) as [st1| |] eqn:Eb;
      cbn [bind] in H; try discriminate.
    apply build_body_inv in Eb as (ob & sb & -> & Fo & Fs).
    apply fill_keeps_shape in Fo as [Lo Co], Fs as [Ls Cs].
    rewrite target_length in Lo, Ls. cbn [constructor TA.make] in Co, Cs.
    apply IH in H; cbn [offsetsArrays scalesArrays] in *.
    + destruct H as (HF & Hol & Hsl).
      rewrite sum_lengths_snoc in Hol, Hsl.
      cbn [totalPositions fold_right]. fold (totalPositions' font_ rest).
      split; [exact HF|]. split; lia.
    + apply Forall_app. split; [assumption|]. now repeat constructor.
    + apply Forall_app. split; [assumption|]. now repeat constructor.
Qed.

(** With patterns that fill every instance, the offset and scale buffers
    hold the patterns repeated. *)
Lemma build_loop_broadcasts (fuel : nat) (font_ : font) (textArray : list string)
      (offsets scales : list (list Q)) :
  forall (i : nat) (st st' : Arrays),
    build_loop' fuel font_ textArray offsets scales i st = Return st' ->
    instances_fillable' font_ textArray offsets scales i = true ->
    List.concat (map elements (offsetsArrays st'))
    = List.concat (map elements (offsetsArrays st))
      ++ broadcasts' font_ textArray offsets i /\
    List.concat (map elements (scalesArrays st'))
    = List.concat (map elements (scalesArrays st))
      ++ broadcasts' font_ textArray scales i.
Proof.
  induction textArray as [|text rest IH]; intros i st st' H Hfill.
  - cbn [build_loop] in H. injection H as <-. cbn [broadcasts].
    now rewrite !app_nil_r.
  - cbn [build_loop] in H. cbn [instances_fillable] in Hfill.
    apply andb_prop in Hfill as [Hfill H3]. apply andb_prop in Hfill as [Ho Hs].
    destruct (build_body' fuel font_ offsets scales i text st) as [st1| |] eqn:Eb;
      cbn [bind] in H; try discriminate.
    apply build_body_inv in Eb as (ob & sb & -> & Fo & Fs).
    assert (Hob : elements ob
                  = cycle (patternOf fround offsets i)
                          (Z.to_nat (positionsLength' font_ text))).
    { rewrite <- naiveFill_elements. f_equal.
      pose proof (fill_pattern_returns fround font glyph createLayout getPositions
                    getUvs createIndices (Nat.max fuel 31) font_ text _ Ho
                    (Nat.le_max_r _ _)) as Hn.
      unfold fillTypedArraySequence in Fo, Hn.
      destruct (TA.set fround _ _ 0) as [a| |]; cbn [bind] in *; try discriminate.
      apply (fill_while_more_fuel _ _ _ _ (Nat.max fuel 31)) in Fo;
        [congruence|apply Nat.le_max_l]. }
    assert (Hsb : elements sb
                  = cycle (patternOf fround scales i)
                          (Z.to_nat (positionsLength' font_ text))).
    { rewrite <- naiveFill_elements. f_equal.
      pose proof (fill_pattern_returns fround font glyph createLayout getPositions
                    getUvs createIndices (Nat.max fuel 31) font_ text _ Hs
                    (Nat.le_max_r _ _)) as Hn.
      unfold fillTypedArraySequence in Fs, Hn.
      destruct (TA.set fround _ _ 0) as [a| |]; cbn [bind] in *; try discriminate.
      apply (fill_while_more_fuel _ _ _ _ (Nat.max fuel 31)) in Fs;
        [congruence|apply Nat.le_max_l]. }
    apply IH in H as [H1 H2]; [|assumption].
    cbn [offsetsArrays scalesArrays] in *.
    rewrite concat_elements_snoc in H1, H2.
    cbn [broadcasts]. rewrite H1, H2, Hob, Hsb, <- !app_assoc. now split.
Qed.

Lemma totalPositions_app (font_ : font) (first second : list string) :
  totalPositions' font_ (first ++ second)
  = totalPositions' font_ first + totalPositions' font_ second.
Proof.
  induction first as [|text rest IH]; [reflexivity|].
  unfold totalPositions in *. cbn [app fold_right]. rewrite IH. lia.
Qed.

Lemma totalPositions_bounds (font_ : font) (textArray : list string) :
  0 <= totalPositions' font_ textArray.
Proof.
  induction textArray as [|text rest IH]; unfold totalPositions in *;
    cbn [fold_right]; [lia|].
  pose proof (positionsLength_nonneg fround font glyph createLayout getPositions
                getUvs createIndices font_ text). lia.
Qed.

Lemma broadcasts_length (font_ : font) (textArray : list string)
      (patterns : list (list Q)) :
  forall i : nat,
    Z.of_nat (List.length (broadcasts' font_ textArray patterns i))
    = totalPositions' font_ textArray.
Proof.
  induction textArray as [|text rest IH]; intros i; [reflexivity|].
  cbn [broadcasts]. unfold totalPositions in *. cbn [fold_right].
  rewrite length_app, cycle_length, Nat2Z.inj_add, IH.
  pose proof (positionsLength_nonneg fround font glyph createLayout getPositions
                getUvs createIndices font_ text). lia.
Qed.

(** Where an instance's pattern sits in the naive content. *)
Lemma broadcasts_at (font_ : font) (textArray : list string)
      (patterns : list (list Q)) :
  forall (start i : nat) (text : string) (m : Z),
    nth_error textArray i = Some text ->
    0 <= m < positionsLength' font_ text ->
    patternOf fround patterns (start + i) <> [] ->
    nth_error (broadcasts' font_ textArray patterns start)
              (Z.to_nat (totalPositions' font_ (firstn i textArray) + m))
    = nth_error (patternOf fround patterns (start + i))
                (Z.to_nat m mod List.length (patternOf fround patterns (start + i))).
Proof.
  induction textArray as [|text0 rest IH]; intros start i text m Hi Hm HP.
  - destruct i; discriminate.
  - destruct i as [|i]; cbn [nth_error] in Hi.
    + injection Hi as ->. rewrite Nat.add_0_r in *.
      cbn [firstn totalPositions fold_right broadcasts]. rewrite Z.add_0_l.
      rewrite nth_error_app1 by (rewrite cycle_length; lia).
      assert (Hlt : (Z.to_nat m mod List.length (patternOf fround patterns start)
                     < List.length (patternOf fround patterns start))%nat).
      { apply Nat.mod_upper_bound. now destruct (patternOf fround patterns start). }
      rewrite (nth_error_nth' _ 0%Q) by (rewrite cycle_length; lia).
      rewrite (nth_error_nth' _ 0%Q Hlt).
      f_equal. apply cycle_nth. lia.
    + cbn [firstn totalPositions fold_right broadcasts].
      fold (totalPositions' font_ (firstn i rest)).
      pose proof (positionsLength_nonneg fround font glyph createLayout
                    getPositions getUvs createIndices font_ text0) as H0.
      pose proof (totalPositions_bounds font_ (firstn i rest)) as Ht.
      rewrite nth_error_app2 by (rewrite cycle_length; lia).
      rewrite cycle_length.
      replace (Z.to_nat (positionsLength' font_ text0
                         + totalPositions' font_ (firstn i rest) + m)
               - Z.to_nat (positionsLength' font_ text0))%nat
        with (Z.to_nat (totalPositions' font_ (firstn i rest) + m)) by lia.
      rewrite Nat.add_succ_r in *.
      exact (IH (S start) i text m Hi Hm HP).
Qed.

Lemma instances_fillable_at (font_ : font) (textArray : list string)
      (offsets scales : list (list Q)) :
  forall (start i : nat) (text : string),
    instances_fillable' font_ textArray offsets scales start = true ->
    nth_error textArray i = Some text ->
    fillable (positionsLength' font_ text) (nth_error offsets (start + i)) = true /\
    fillable (positionsLength' font_ text) (nth_error scales (start + i)) = true.
Proof.
  induction textArray as [|text0 rest IH]; intros start i text H Hi.
  - destruct i; discriminate.
  - cbn [instances_fillable] in H.
    apply andb_prop in H as [H H3]. apply andb_prop in H as [H1 H2].
    destruct i as [|i]; cbn [nth_error] in Hi.
    + injection Hi as <-. rewrite Nat.add_0_r. now split.
    + rewrite Nat.add_succ_r. exact (IH (S start) i text H3 Hi).
Qed.

Lemma fillable_pattern (L : Z) (patterns : list (list Q)) (i : nat) :
  fillable L (nth_error patterns i) = true -> patternOf fround patterns i <> [].
Proof.
  unfold fillable, patternOf.
  destruct (nth_error patterns i) as [[|q p]|]; cbn; try discriminate.
Qed.

Lemma shiftedIndices_app (font_ : font) (first second : list string) :
  forall before : Z,
    shiftedIndices' font_ (first ++ second) before
    = shiftedIndices' font_ first before
      ++ shiftedIndices' font_ second (before + totalPositions' font_ first).
Proof.
  induction first as [|text rest IH]; intros before.
  - cbn [app shiftedIndices totalPositions fold_right]. now rewrite Z.add_0_r.
  - cbn [app shiftedIndices totalPositions fold_right].
    rewrite IH, <- app_assoc. fold (totalPositions' font_ rest).
    now rewrite Z.add_assoc.
Qed.

Lemma shiftedIndices_shift (font_ : font) (textArray : list string) (V : Z) :
  forall before : Z,
    shiftedIndices' font_ textArray (before + 2 * V)
    = map (fun x => (x + V) mod 2 ^ 16) (shiftedIndices' font_ textArray before).
Proof.
  induction textArray as [|text rest IH]; intros before; [reflexivity|].
  cbn [shiftedIndices]. rewrite map_app, map_map. f_equal.
  - apply map_ext. intros k.
    replace (before + 2 * V) with (before + V * 2) by lia.
    rewrite Z.div_add by lia.
    rewrite Z.add_mod_idemp_l by lia. f_equal. lia.
  - rewrite <- IH. f_equal. lia.
Qed.

Lemma shiftedIndices_range (font_ : font) (textArray : list string) :
  forall (before x : Z),
    In x (shiftedIndices' font_ textArray before) -> 0 <= x < 2 ^ 16.
Proof.
  induction textArray as [|text rest IH]; intros before x H; [destruct H|].
  cbn [shiftedIndices] in H. apply in_app_or in H as [H|H].
  - apply in_map_iff in H as (k & <- & _). apply Z.mod_pos_bound. lia.
  - now apply IH in H.
Qed.

Lemma shiftedIndices_length (font_ : font) (textArray : list string) :
  forall before : Z,
    List.length (shiftedIndices' font_ textArray before)
    = List.length (List.concat (map (localIndices' font_) textArray)).
Proof.
  induction textArray as [|text rest IH]; intros before; [reflexivity|].
  cbn [shiftedIndices map List.concat]. now rewrite !length_app, length_map, IH.
Qed.

End BatchChannelFacts.

Lemma concatenate_all_constructor (fround : Q -> Q) (C : ArrayType)
      (l : list TypedArray) :
  l <> [] -> Forall (fun a => constructor a = C) l ->
  constructor (concatenate_all fround l) = C.
Proof.
  intros Hne Hall. destruct l as [|first rest]; [congruence|].
  now inversion Hall.
Qed.

Section BatchExtras.

Variable fround : Q -> Q.
Variable font : Type.
Variable glyph : Type.
Variable createLayout : font -> string -> Z -> string -> list glyph.
Variable getPositions : list glyph -> TypedArray.
Variable getUvs : list glyph -> Z -> Z -> bool -> TypedArray.
Variable createIndices : bool -> string -> Z -> list Q.

Local Abbreviation createTextAttributes' :=
  (createTextAttributes fround font glyph createLayout getPositions getUvs
                        createIndices).
Local Abbreviation positionsLength' :=
  (positionsLength fround font glyph createLayout getPositions getUvs
                   createIndices).
Local Abbreviation localIndices' := (localIndices font glyph createLayout createIndices).
Local Abbreviation totalPositions' :=
  (totalPositions fround font glyph createLayout getPositions getUvs createIndices).
Local Abbreviation shiftedIndices' :=
  (shiftedIndices fround font glyph createLayout getPositions getUvs createIndices).
Local Abbreviation instances_fillable' :=
  (instances_fillable fround font glyph createLayout getPositions getUvs
                      createIndices).
Local Abbreviation broadcasts' :=
  (broadcasts fround font glyph createLayout getPositions getUvs createIndices).
Local Abbreviation build_body' :=
  (build_body fround font glyph createLayout getPositions getUvs createIndices).
Local Abbreviation build_loop' :=
  (build_loop fround font glyph createLayout getPositions getUvs createIndices).
Local Abbreviation buildMergedText' :=
  (buildMergedText fround font glyph createLayout getPositions getUvs
                   createIndices).

Lemma pattern_length (patterns : list (list Q)) (i : nat) :
  TA.length (TA.from fround Float32Array (nth_error patterns i))
  = Z.of_nat (List.length (patternOf fround patterns i)).
Proof. reflexivity. Qed.

Lemma fillable_fits (L : Z) (patterns : list (list Q)) (i : nat) :
  fillable L (nth_error patterns i) = true ->
  1 <= Z.of_nat (List.length (patternOf fround patterns i)) <= L /\ L <= 2 ^ 31.
Proof.
  unfold fillable, patternOf.
  destruct (nth_error patterns i) as [p|]; [|discriminate].
  intros H. apply andb_prop in H as [H H3]. apply andb_prop in H as [H1 H2].
  unfold TA.from. cbn [elements]. rewrite length_map. lia.
Qed.

(** The loop body throws nothing but the [RangeError] of a pattern that
    is longer than the buffer it is to fill. *)
Lemma build_body_throws (fuel : nat) (font_ : font) (offsets scales : list (list Q))
      (i : nat) (text : string) (st : Arrays) (e : Error) :
  build_body' fuel font_ offsets scales i text st = Throw e ->
  e = RangeError /\
  (positionsLength' font_ text
   < Z.of_nat (List.length (patternOf fround offsets i)) \/
   positionsLength' font_ text
   < Z.of_nat (List.length (patternOf fround scales i))).
Proof.
  unfold build_body.
  destruct (fillTypedArraySequence fround fuel _
              (TA.from fround Float32Array (nth_error offsets i)))
    as [ob| |] eqn:Fo; cbn [bind]; try discriminate.
  - destruct (fillTypedArraySequence fround fuel _
                (TA.from fround Float32Array (nth_error scales i)))
      as [sb| |] eqn:Fs; cbn [bind]; try discriminate.
    intros H. injection H as <-.
    apply fill_throws_only_RangeError in Fs as [-> Hs].
    rewrite target_length, pattern_length in Hs. now split; [|right].
  - intros H. injection H as <-.
    apply fill_throws_only_RangeError in Fo as [-> Ho].
    rewrite target_length, pattern_length in Ho. now split; [|left].
Qed.

(** What the loop throws is thrown by the body on one of the texts. *)
Lemma build_loop_throws (fuel : nat) (font_ : font) (textArray : list string)
      (offsets scales : list (list Q)) (e : Error) :
  forall (start : nat) (st : Arrays),
    build_loop' fuel font_ textArray offsets scales start st = Throw e ->
    e = RangeError /\
    exists (i : nat) (text : string),
      nth_error textArray i = Some text /\
      (positionsLength' font_ text
       < Z.of_nat (List.length (patternOf fround offsets (start + i))) \/
       positionsLength' font_ text
       < Z.of_nat (List.length (patternOf fround scales (start + i)))).
Proof.
  induction textArray as [|text rest IH]; intros start st H;
    cbn [build_loop] in H; [discriminate|].
  destruct (build_body' fuel font_ offsets scales start text st)
    as [st1| |] eqn:Eb; cbn [bind] in H; try discriminate.
  - apply IH in H as (He & i & text' & Hi & Hlt).
    split; [exact He|]. exists (S i), text'. rewrite Nat.add_succ_r.
    split; [exact Hi|exact Hlt].
  - injection H as <-. apply build_body_throws in Eb as [He Hlt].
    split; [exact He|]. exists 0%nat, text. rewrite Nat.add_0_r.
    split; [reflexivity|exact Hlt].
Qed.

(** Over instances that their offsets and scales fill, the loop throws
    nothing, whatever the fuel. *)
Lemma build_loop_fillable_throws_nothing (fuel : nat) (font_ : font)
      (textArray : list string) (offsets scales : list (list Q)) (e : Error) :
  forall (i : nat) (st : Arrays),
    instances_fillable' font_ textArray offsets scales i = true ->
    build_loop' fuel font_ textArray offsets scales i st <> Throw e.
Proof.
  induction textArray as [|text rest IH]; intros i st Hfill H;
    cbn [build_loop] in H; [discriminate|].
  cbn [instances_fillable] in Hfill.
  apply andb_prop in Hfill as [Hfill H3]. apply andb_prop in Hfill as [Ho Hs].
  apply fillable_fits in Ho, Hs.
  destruct (build_body' fuel font_ offsets scales i text st) as [st1| |] eqn:Eb;
    cbn [bind] in H; try discriminate.
  - now apply IH in H.
  - apply build_body_throws in Eb as [_ [Hlt|Hlt]]; lia.
Qed.

(** After a return of the loop over at least one text, none of the five
    arrays is empty. *)
Lemma build_loop_collects (fuel : nat) (font_ : font) (textArray : list string)
      (offsets scales : list (list Q)) (st : Arrays) :
  textArray <> [] ->
  build_loop' fuel font_ textArray offsets scales 0 (mkArrays 0 [] [] [] [] [])
  = Return st ->
  positionsArrays st <> [] /\ uvsArrays st <> [] /\ indicesArrays st <> [] /\
  offsetsArrays st <> [] /\ scalesArrays st <> [].
Proof.
  intros Hne Hloop.
  destruct (build_loop_inv fround font glyph createLayout getPositions getUvs
              createIndices fuel font_ textArray offsets scales 0 _ st 0 Hloop)
    as ((L1 & L2 & L3 & L4 & L5) & _); [reflexivity|lia|constructor|].
  cbn [positionsArrays uvsArrays indicesArrays offsetsArrays scalesArrays
       List.length Nat.add] in *.
  assert (HN : (0 < List.length textArray)%nat)
    by (destruct textArray; [congruence|cbn; lia]).
  repeat split; intros E; rewrite E in *; cbn in *; lia.
Qed.

(** X5: the errors that the statements of [buildMergedText] raise
    themselves (the layout, the geometry generator and the index
    generator are parameters here and return for every text; what they
    may throw, on an undefined font for one, is not modelled).  On an
    empty [textArray] it throws a TypeError ([mergeTypedArrays] reads
    [typedArrays[0].constructor] of an empty array).  Whatever it throws on
    a [textArray] that is not empty is a RangeError, and then one of the
    instances has an offset or a scale of more components than its
    position buffer has coordinates. *)
Theorem buildMergedText_throws_only_for_a_cause
        (fuel : nat) (font_ : font) (offsets scales : list (list Q)) :
  buildMergedText' fuel font_ [] offsets scales = Throw TypeError /\
  forall (textArray : list string) (e : Error),
    textArray <> [] ->
    buildMergedText' fuel font_ textArray offsets scales = Throw e ->
    e = RangeError /\
    exists (i : nat) (text : string),
      nth_error textArray i = Some text /\
      (positionsLength' font_ text
       < Z.of_nat (List.length (patternOf fround offsets i)) \/
       positionsLength' font_ text
       < Z.of_nat (List.length (patternOf fround scales i))).
Proof.
  split; [reflexivity|].
  intros textArray e Hne H. unfold buildMergedText in H.
  destruct (build_loop' fuel font_ textArray offsets scales 0
              (mkArrays 0 [] [] [] [] [])) as [st|e'|] eqn:Eloop;
    cbn [bind] in H; try discriminate.
  - apply build_loop_collects in Eloop as (N1 & N2 & N3 & N4 & N5);
      [|exact Hne].
    rewrite !merge_returns_all in H by assumption. discriminate.
  - injection H as <-.
    exact (build_loop_throws fuel font_ textArray offsets scales e' 0 _ Eloop).
Qed.

(** An instance without a vertex that has an offset or a scale. *)
Lemma instance_without_vertex_throws
      (fuel : nat) (font_ : font) (before : list string) (text : string)
      (after : list string) (offsets scales : list (list Q)) :
  (31 <= fuel)%nat ->
  instances_fillable' font_ before offsets scales 0 = true ->
  positionsLength' font_ text = 0 ->
  patternOf fround offsets (List.length before) <> [] \/
  patternOf fround scales (List.length before) <> [] ->
  buildMergedText' fuel font_ (before ++ text :: after) offsets scales
  = Throw RangeError.
Proof.
  intros Hfuel Hfill HL Hpat. unfold buildMergedText.
  rewrite build_loop_app.
  destruct (build_loop_returns fround font glyph createLayout getPositions getUvs
              createIndices fuel font_ before offsets scales Hfuel 0
              (mkArrays 0 [] [] [] [] []) Hfill) as [st ->].
  cbn [bind build_loop Nat.add]. unfold build_body.
  destruct (patternOf fround offsets (List.length before)) as [|q p] eqn:Eo.
  - destruct Hpat as [Hpat|Hpat]; [congruence|].
    destruct (fill_of_nothing fround fuel
                (TA.make Float32Array
                   (truncate (vertexCount (createTextAttributes' font_ text) * 2)%Q))
                (TA.from fround Float32Array
                   (nth_error offsets (List.length before)))) as [r ->].
    + now rewrite target_length.
    + now rewrite pattern_length, Eo.
    + cbn [bind]. rewrite fill_oversized_pattern; [reflexivity|].
      rewrite target_length, pattern_length, HL.
      destruct (patternOf fround scales (List.length before)); [congruence|].
      cbn [List.length]. lia.
  - rewrite fill_oversized_pattern; [reflexivity|].
    rewrite target_length, pattern_length, HL, Eo. cbn [List.length]. lia.
Qed.

(** X6: an instance without a vertex (a text without a glyph:
    [positions.length] is 0) that has a non-empty offset or a non-empty
    scale makes the batch merge throw a RangeError, when the instances
    before it are filled by their offsets and scales. *)
Theorem buildMergedText_throws_on_instance_without_vertex
        (fuel : nat) (font_ : font) (before : list string) (text : string)
        (after : list string) (offsets scales : list (list Q)) :
  (31 <= fuel)%nat ->
  instances_fillable' font_ before offsets scales 0 = true ->
  positionsLength' font_ text = 0 ->
  patternOf fround offsets (List.length before) <> [] \/
  patternOf fround scales (List.length before) <> [] ->
  buildMergedText' fuel font_ (before ++ text :: after) offsets scales
  = Throw RangeError.
Proof. apply instance_without_vertex_throws. Qed.

(** X7: an instance with at least one coordinate whose offset is
    missing or empty (as when [offsets] is shorter than [textArray]), or
    whose offset fills it but whose scale is missing or empty, makes the
    batch merge loop for ever: with no fuel does it return or throw.  The
    instances before it are taken to be filled by their offsets and
    scales. *)
Theorem buildMergedText_never_returns_without_pattern
        (fuel : nat) (font_ : font) (before : list string) (text : string)
        (after : list string) (offsets scales : list (list Q)) :
  instances_fillable' font_ before offsets scales 0 = true ->
  0 < positionsLength' font_ text ->
  patternOf fround offsets (List.length before) = [] \/
  (fillable (positionsLength' font_ text)
            (nth_error offsets (List.length before)) = true /\
   patternOf fround scales (List.length before) = []) ->
  buildMergedText' fuel font_ (before ++ text :: after) offsets scales
  = OutOfFuel.
Proof.
  intros Hfill HL Hpat. unfold buildMergedText.
  rewrite build_loop_app.
  destruct (build_loop' fuel font_ before offsets scales 0
              (mkArrays 0 [] [] [] [] [])) as [st|e|] eqn:Eloop;
    cbn [bind]; [|now apply build_loop_fillable_throws_nothing in Eloop|reflexivity].
  cbn [build_loop Nat.add]. unfold build_body.
  destruct Hpat as [Ho|[Ho Hs]].
  - rewrite fill_empty_pattern; [reflexivity| |].
    + now rewrite pattern_length, Ho.
    + now rewrite target_length.
  - destruct (fillTypedArraySequence fround fuel _
                (TA.from fround Float32Array
                   (nth_error offsets (List.length before))))
      as [ob|e|] eqn:Fo; cbn [bind]; [| |reflexivity].
    + rewrite fill_empty_pattern; [reflexivity| |].
      * now rewrite pattern_length, Hs.
      * now rewrite target_length.
    + apply fill_throws_only_RangeError in Fo as [_ Hlt].
      rewrite target_length, pattern_length in Hlt.
      apply fillable_fits in Ho. lia.
Qed.

(** The fill returns only on a pattern that fits the target and, unless
    the target is empty, is not empty. *)
Lemma fill_returns_only_if_fits (fuel : nat) (typedArray sequence r : TypedArray) :
  fillTypedArraySequence fround fuel typedArray sequence = Return r ->
  TA.length sequence <= TA.length typedArray /\
  (0 < TA.length typedArray -> 0 < TA.length sequence).
Proof.
  intros H. split.
  - destruct (Z_lt_le_dec (TA.length typedArray) (TA.length sequence)) as [Hlt|Hle];
      [|exact Hle].
    rewrite fill_oversized_pattern in H by assumption. discriminate.
  - intros HL.
    destruct (Z.eq_dec (TA.length sequence) 0) as [H0|H0].
    + rewrite fill_empty_pattern in H by assumption. discriminate.
    + unfold TA.length in *. lia.
Qed.

Lemma build_loop_patterns_fit (fuel : nat) (font_ : font) (textArray : list string)
      (offsets scales : list (list Q)) :
  forall (start : nat) (st st' : Arrays) (i : nat) (text : string),
    build_loop' fuel font_ textArray offsets scales start st = Return st' ->
    nth_error textArray i = Some text ->
    (Z.of_nat (List.length (patternOf fround offsets (start + i)))
     <= positionsLength' font_ text /\
     (0 < positionsLength' font_ text ->
      patternOf fround offsets (start + i) <> [])) /\
    (Z.of_nat (List.length (patternOf fround scales (start + i)))
     <= positionsLength' font_ text /\
     (0 < positionsLength' font_ text ->
      patternOf fround scales (start + i) <> [])).
Proof.
  induction textArray as [|text0 rest IH]; intros start st st' i text H Hi.
  - destruct i; discriminate.
  - cbn [build_loop] in H.
    destruct (build_body' fuel font_ offsets scales start text0 st)
      as [st1| |] eqn:Eb; cbn [bind] in H; try discriminate.
    destruct i as [|i]; cbn [nth_error] in Hi.
    + injection Hi as <-. rewrite Nat.add_0_r.
      apply build_body_inv in Eb as (ob & sb & _ & Fo & Fs).
      apply fill_returns_only_if_fits in Fo as [Fo1 Fo2], Fs as [Fs1 Fs2].
      rewrite target_length, pattern_length in Fo1, Fo2, Fs1, Fs2.
      repeat split; try assumption.
      * intros HL E. specialize (Fo2 HL). rewrite E in Fo2. cbn in Fo2. lia.
      * intros HL E. specialize (Fs2 HL). rewrite E in Fs2. cbn in Fs2. lia.
    + rewrite Nat.add_succ_r. exact (IH (S start) st1 st' i text H Hi).
Qed.

(** X8: whenever [buildMergedText] returns, every instance had an
    offset and a scale of no more components than its position buffer has
    coordinates, and not empty if the instance has a coordinate at all. *)
Theorem buildMergedText_returns_only_when_patterns_fit
        (fuel : nat) (font_ : font) (textArray : list string)
        (offsets scales : list (list Q)) (merged : MergedText)
        (i : nat) (text : string) :
  buildMergedText' fuel font_ textArray offsets scales = Return merged ->
  nth_error textArray i = Some text ->
  (Z.of_nat (List.length (patternOf fround offsets i))
   <= positionsLength' font_ text /\
   (0 < positionsLength' font_ text -> patternOf fround offsets i <> [])) /\
  (Z.of_nat (List.length (patternOf fround scales i))
   <= positionsLength' font_ text /\
   (0 < positionsLength' font_ text -> patternOf fround scales i <> [])).
Proof.
  intros H Hi.
  apply buildMergedText_merges in H as (_ & st & Hloop & _).
  exact (build_loop_patterns_fit fuel font_ textArray offsets scales 0 _ st i
           text Hloop Hi).
Qed.

(** X9: whenever [buildMergedText] returns, the merged offsets and
    the merged scales are Float32Arrays as long as the merged positions
    (one pair per vertex), and the merged indices are a Uint16Array with
    as many entries as the local index buffers of all instances have
    together. *)
Theorem merged_buffers_are_aligned
        (fuel : nat) (font_ : font) (textArray : list string)
        (offsets scales : list (list Q)) (merged : MergedText) :
  buildMergedText' fuel font_ textArray offsets scales = Return merged ->
  (TA.length (mergedOffsets merged) = TA.length (mergedPositions merged) /\
   TA.length (mergedScales merged) = TA.length (mergedPositions merged)) /\
  (constructor (mergedOffsets merged) = Float32Array /\
   constructor (mergedScales merged) = Float32Array /\
   constructor (mergedIndices merged) = Uint16Array) /\
  TA.length (mergedIndices merged)
  = Z.of_nat (List.length (List.concat (map (localIndices' font_) textArray))).
Proof.
  intros H.
  destruct (buildMergedText_inv fround font glyph createLayout getPositions getUvs
              createIndices fuel font_ textArray offsets scales merged H)
    as (_ & Hpos & Hidx).
  apply buildMergedText_merges in H as (Hne & st & Hloop & -> & N4 & N5 & _).
  cbn [mergedOffsets mergedScales mergedPositions mergedIndices] in *.
  destruct (build_loop_aligned fround font glyph createLayout getPositions getUvs
              createIndices fuel font_ textArray offsets scales 0 _ st Hloop)
    as ((Co & Cs) & Lo & Ls); [constructor|constructor|].
  cbn [offsetsArrays scalesArrays fold_right] in Lo, Ls.
  split; [|split].
  - rewrite Hpos, !concatenate_all_length. split; lia.
  - rewrite !(concatenate_all_constructor fround Float32Array) by assumption.
    rewrite Hidx. now repeat split.
  - rewrite Hidx. unfold TA.length. cbn [elements].
    now rewrite length_map, shiftedIndices_length.
Qed.

(** X10: whenever [buildMergedText] returns, and the geometry
    generator yields position buffers of one type and uv buffers of one
    type, the merged positions are the instances' position buffers one
    after the other in the order of [textArray], and the merged uvs the
    instances' uv buffers likewise. *)
Theorem merged_positions_and_uvs_in_order
        (fuel : nat) (font_ : font) (textArray : list string)
        (offsets scales : list (list Q)) (merged : MergedText) (C C' : ArrayType) :
  buildMergedText' fuel font_ textArray offsets scales = Return merged ->
  Forall (fun text => constructor (positions (createTextAttributes' font_ text)) = C)
         textArray ->
  Forall (fun text => constructor (uvs (createTextAttributes' font_ text)) = C')
         textArray ->
  mergedPositions merged
  = mkTypedArray C
      (List.concat
         (map (fun text => elements (positions (createTextAttributes' font_ text)))
              textArray)) /\
  mergedUvs merged
  = mkTypedArray C'
      (List.concat
         (map (fun text => elements (uvs (createTextAttributes' font_ text)))
              textArray)).
Proof.
  intros H HC HC'.
  apply buildMergedText_merges in H as (Hne & st & Hloop & -> & _ & _ & N1 & N2).
  apply build_loop_positions in Hloop as [Hp Hu].
  cbn [positionsArrays uvsArrays app mergedPositions mergedUvs] in *.
  rewrite Hp in *. rewrite Hu in *.
  rewrite (concatenate_all_same fround C), (concatenate_all_same fround C');
    try assumption.
  - now rewrite !map_map.
  - apply Forall_map. exact HC'.
  - apply Forall_map. exact HC.
Qed.

(** X11: whenever [buildMergedText] returns on instances that their
    offsets and scales fill, coordinate [m] of instance [i] (at index
    [m] after the coordinates of the instances before it) holds component
    [m mod offsets[i].length] of [offsets[i]] in the merged offsets, as a
    float32, and likewise for the scales: with pairs, every vertex of
    instance [i] carries [offsets[i]] and [scales[i]]. *)
Theorem merged_offsets_and_scales_per_instance
        (fuel : nat) (font_ : font) (textArray : list string)
        (offsets scales : list (list Q)) (merged : MergedText)
        (i : nat) (text : string) (m : Z) :
  buildMergedText' fuel font_ textArray offsets scales = Return merged ->
  instances_fillable' font_ textArray offsets scales 0 = true ->
  nth_error textArray i = Some text ->
  0 <= m < positionsLength' font_ text ->
  nth_error (elements (mergedOffsets merged))
            (Z.to_nat (totalPositions' font_ (firstn i textArray) + m))
  = nth_error (patternOf fround offsets i)
              (Z.to_nat m mod List.length (patternOf fround offsets i)) /\
  nth_error (elements (mergedScales merged))
            (Z.to_nat (totalPositions' font_ (firstn i textArray) + m))
  = nth_error (patternOf fround scales i)
              (Z.to_nat m mod List.length (patternOf fround scales i)).
Proof.
  intros H Hfill Hi Hm.
  apply buildMergedText_merges in H as (Hne & st & Hloop & -> & N4 & N5 & _).
  destruct (build_loop_aligned fround font glyph createLayout getPositions getUvs
              createIndices fuel font_ textArray offsets scales 0 _ st Hloop)
    as ((Co & Cs) & _); [constructor|constructor|].
  destruct (build_loop_broadcasts fround font glyph createLayout getPositions
              getUvs createIndices fuel font_ textArray offsets scales 0 _ st
              Hloop Hfill) as [Bo Bs].
  cbn [offsetsArrays scalesArrays map List.concat app] in Bo, Bs.
  cbn [mergedOffsets mergedScales].
  rewrite !(concatenate_all_same fround Float32Array) by assumption.
  cbn [elements]. rewrite Bo, Bs.
  destruct (instances_fillable_at fround font glyph createLayout getPositions
              getUvs createIndices font_ textArray offsets scales 0 i text
              Hfill Hi) as [Fo Fs].
  cbn [Nat.add] in Fo, Fs.
  split.
  - apply (broadcasts_at fround font glyph createLayout getPositions getUvs
             createIndices font_ textArray offsets 0 i text m Hi Hm).
    exact (fillable_pattern fround _ offsets i Fo).
  - apply (broadcasts_at fround font glyph createLayout getPositions getUvs
             createIndices font_ textArray scales 0 i text m Hi Hm).
    exact (fillable_pattern fround _ scales i Fs).
Qed.

(** X12: merging a batch in two parts.  When [buildMergedText]
    returns on [first], on [second] and on [first ++ second], and [first]
    has [V] vertices, the merged indices of the whole are those of
    [first] followed by those of [second] with [V] added to each by the
    same Uint16 addition the loop uses ([add_maxIndex]); the merged
    positions are as long as both together.  Offsets and scales play no
    part. *)
Theorem merged_indices_of_a_batch_in_two_parts
        (fuel1 fuel2 fuel : nat) (font_ : font) (first second : list string)
        (offsets1 scales1 offsets2 scales2 offsets scales : list (list Q))
        (merged1 merged2 merged : MergedText) (V : Z) :
  buildMergedText' fuel1 font_ first offsets1 scales1 = Return merged1 ->
  buildMergedText' fuel2 font_ second offsets2 scales2 = Return merged2 ->
  buildMergedText' fuel font_ (first ++ second) offsets scales = Return merged ->
  TA.length (mergedPositions merged1) = 2 * V ->
  mergedIndices merged
  = mkTypedArray Uint16Array
      (elements (mergedIndices merged1)
       ++ elements (add_maxIndex fround (mergedIndices merged2) (inject_Z V))) /\
  TA.length (mergedPositions merged)
  = TA.length (mergedPositions merged1) + TA.length (mergedPositions merged2).
Proof.
  intros H1 H2 H HV.
  apply buildMergedText_inv in H1 as (_ & P1 & I1).
  apply buildMergedText_inv in H2 as (_ & P2 & I2).
  apply buildMergedText_inv in H as (_ & P & I).
  split; [|rewrite P, P1, P2; apply totalPositions_app].
  rewrite I, I1, I2. f_equal. unfold add_maxIndex. cbn [elements constructor].
  rewrite shiftedIndices_app, map_app. f_equal.
  rewrite <- P1, HV.
  rewrite (shiftedIndices_shift fround font glyph createLayout getPositions getUvs
             createIndices font_ second V 0).
  rewrite !map_map. apply map_ext_in. intros x Hx.
  apply shiftedIndices_range in Hx.
  cbn [TA.convert]. symmetry.
  assert (HVpos : 0 <= 2 * V).
  { rewrite <- HV, P1. apply totalPositions_bounds. }
  rewrite (ToUint16_shift (inject_Z V) x (2 * V)); try lia.
  - f_equal. f_equal. f_equal. rewrite Z.mul_comm. now rewrite Z.div_mul.
  - unfold Qeq, inject_Z. cbn [Qnum Qden]. lia.
Qed.

End BatchExtras.

(** ** The caller *)

Lemma substring_length (s : string) :
  forall n m : nat, (String.length (substring n m s) <= m)%nat.
Proof.
  induction s as [|c s IH]; intros n m.
  - destruct n, m; cbn; lia.
  - destruct n as [|n].
    + destruct m as [|m]; cbn [substring String.length]; [lia|].
      specialize (IH 0%nat m). lia.
    + cbn [substring]. apply IH.
Qed.

Lemma substring_of_short (s : string) :
  forall n m : nat, (String.length s <= n)%nat -> substring n m s = EmptyString.
Proof.
  induction s as [|c s IH]; intros n m H.
  - now destruct n, m.
  - destruct n as [|n]; cbn [String.length] in H; [lia|].
    cbn [substring]. apply IH. lia.
Qed.

Section CallerFacts.

Variable fround : Q -> Q.
Variable font : Type.
Variable glyph : Type.
Variable createLayout : font -> string -> Z -> string -> list glyph.
Variable getPositions : list glyph -> TypedArray.
Variable getUvs : list glyph -> Z -> Z -> bool -> TypedArray.
Variable createIndices : bool -> string -> Z -> list Q.
Variable Math_sin : Q -> Q.
Variable Math_cos : Q -> Q.
Variable double : Q -> Q.
Variable random_hex : nat -> string.

Local Abbreviation positionsLength' :=
  (positionsLength fround font glyph createLayout getPositions getUvs
                   createIndices).
Local Abbreviation localIndices' := (localIndices font glyph createLayout createIndices).
Local Abbreviation totalPositions' :=
  (totalPositions fround font glyph createLayout getPositions getUvs createIndices).
Local Abbreviation priorVertices' :=
  (priorVertices fround font glyph createLayout getPositions getUvs createIndices).
Local Abbreviation indexOffset' := (indexOffset font glyph createLayout createIndices).
Local Abbreviation instances_fillable' :=
  (instances_fillable fround font glyph createLayout getPositions getUvs
                      createIndices).
Local Abbreviation buildMergedText' :=
  (buildMergedText fround font glyph createLayout getPositions getUvs
                   createIndices).
Local Abbreviation strings' := (strings random_hex).
Local Abbreviation grid' := (grid Math_sin Math_cos double).
Local Abbreviation updateText' :=
  (updateText fround font glyph createLayout getPositions getUvs createIndices
              Math_sin Math_cos double random_hex).

Lemma strings_length : List.length strings' = 100%nat.
Proof. unfold strings. now rewrite length_map, length_seq. Qed.

Lemma strings_short (text : string) :
  In text strings' -> (String.length text <= 3)%nat.
Proof.
  unfold strings, slice_2_5. rewrite in_map_iff. intros (n & <- & _).
  apply substring_length.
Qed.

Lemma strings_nth (n : nat) :
  (n < 100)%nat -> nth_error strings' n = Some (slice_2_5 (random_hex n)).
Proof.
  intros H. unfold strings. rewrite nth_error_map.
  rewrite (nth_error_nth' _ 0%nat) by (rewrite length_seq; lia).
  now rewrite seq_nth.
Qed.

(** Both arrays of the grid hold a hundred pairs. *)
Lemma grid_pairs (time : Q) :
  map (@List.length Q) (fst (grid' time)) = repeat 2%nat 100 /\
  map (@List.length Q) (snd (grid' time)) = repeat 2%nat 100.
Proof. split; reflexivity. Qed.

Lemma pair_at (patterns : list (list Q)) (i : nat) :
  map (@List.length Q) patterns = repeat 2%nat 100 ->
  (i < 100)%nat ->
  exists p : list Q, nth_error patterns i = Some p /\ List.length p = 2%nat.
Proof.
  intros H Hi.
  assert (Hn : nth_error (map (@List.length Q) patterns) i = Some 2%nat).
  { rewrite H. rewrite (nth_error_nth' _ 0%nat) by (rewrite repeat_length; lia).
    f_equal. apply nth_repeat_lt. lia. }
  rewrite nth_error_map in Hn.
  destruct (nth_error patterns i) as [p|]; [|discriminate].
  exists p. split; [reflexivity|]. now injection Hn.
Qed.

(** Instances of 2 to 2^31 coordinates are filled by pairs. *)
Lemma pairs_fill (font_ : font) (offsets scales : list (list Q)) :
  map (@List.length Q) offsets = repeat 2%nat 100 ->
  map (@List.length Q) scales = repeat 2%nat 100 ->
  forall (textArray : list string) (start : nat),
    (start + List.length textArray <= 100)%nat ->
    Forall (fun text => 2 <= positionsLength' font_ text <= 2 ^ 31) textArray ->
    instances_fillable' font_ textArray offsets scales start = true.
Proof.
  intros Ho Hs. induction textArray as [|text rest IH]; intros start Hlen Hall;
    [reflexivity|].
  cbn [List.length] in Hlen. inversion Hall as [|? ? HL Hrest]; subst.
  cbn [instances_fillable].
  destruct (pair_at offsets start Ho) as (po & -> & Lo); [lia|].
  destruct (pair_at scales start Hs) as (ps & -> & Ls); [lia|].
  unfold fillable. rewrite Lo, Ls.
  rewrite IH by (assumption || lia).
  rewrite !andb_true_r. rewrite !andb_true_iff, !Z.leb_le. lia.
Qed.

Lemma totalPositions_at_most (font_ : font) (bound : Z) (textArray : list string) :
  Forall (fun text => positionsLength' font_ text <= bound) textArray ->
  totalPositions' font_ textArray <= bound * Z.of_nat (List.length textArray).
Proof.
  induction 1 as [|text rest H _ IH]; unfold totalPositions in *;
    cbn [fold_right List.length]; lia.
Qed.

(** The contract of the layout and of the geometry generator under which
    the caller is studied: at most one glyph for a character, and a quad
    of four vertices (eight coordinates) for a glyph. *)
Section WithQuads.

Variable font_ : font.
Hypothesis glyphs_of_characters :
  forall text : string,
    (List.length (createLayout font_ text 1 "left") <= String.length text)%nat.
Hypothesis quad_of_glyph :
  forall glyphs : list glyph,
    TA.length (getPositions glyphs) = 8 * Z.of_nat (List.length glyphs).

Lemma strings_positions (text : string) :
  In text strings' ->
  positionsLength' font_ text
  = 8 * Z.of_nat (List.length (createLayout font_ text 1 "left")) /\
  positionsLength' font_ text <= 24.
Proof.
  intros Hin. apply strings_short in Hin.
  pose proof (glyphs_of_characters text) as Hg.
  unfold positionsLength, createTextAttributes. cbn [positions].
  rewrite quad_of_glyph. lia.
Qed.

Lemma strings_fill (time : Q) (n : nat) :
  (n <= 100)%nat ->
  Forall (fun text => createLayout font_ text 1 "left" <> []) (firstn n strings') ->
  instances_fillable' font_ (firstn n strings')
                      (fst (grid' time)) (snd (grid' time)) 0 = true.
Proof.
  intros Hn Hall. destruct (grid_pairs time) as [Ho Hs].
  apply pairs_fill; try assumption.
  - rewrite length_firstn, strings_length. lia.
  - rewrite Forall_forall in *. intros text Hin.
    specialize (Hall text Hin).
    assert (Hin' : In text strings').
    { rewrite <- (firstn_skipn n strings'). apply in_or_app. now left. }
    destruct (strings_positions text Hin') as [-> Hle].
    destruct (createLayout font_ text 1 "left"); [congruence|].
    cbn [List.length] in *. lia.
Qed.

Lemma updateText_unfolded (fuel : nat) (now : Q) (geometry : Geometry) :
  updateText' fuel now font_ geometry
  = (attributes <-
       buildMergedText' fuel font_ strings'
         (fst (grid' (double (now / 1000)%Q))) (snd (grid' (double (now / 1000)%Q))) ;;
     Return (mkGeometry (mergedPositions attributes) (mergedUvs attributes)
                        (mergedScales attributes) (mergedOffsets attributes)
                        (mergedIndices attributes))).
Proof.
  unfold updateText. now destruct (grid' (double (now / 1000)%Q)).
Qed.

End WithQuads.

(** X13: the two loops of [updateText] build as many offsets and as
    many scales as there are strings (100), and entry [10 * x + y] of each
    is the one pushed for column [x] and row [y]: the offset
    [[(x - 5) * 80, (y - 5) * 64]] and the scale computed from
    [Math.sin(time + x)] and [Math.cos(time + y)]. *)
Theorem updateText_grid_layout (time : Q) (x y : nat) :
  (x < 10)%nat -> (y < 10)%nat ->
  (List.length (fst (grid' time)) = List.length strings' /\
   List.length (snd (grid' time)) = List.length strings') /\
  nth_error (fst (grid' time)) (10 * x + y)
  = Some [inject_Z ((Z.of_nat x - 5) * 80); inject_Z ((Z.of_nat y - 5) * 64)] /\
  nth_error (snd (grid' time)) (10 * x + y)
  = Some [double (double (Math_sin (double (time + inject_Z (Z.of_nat x)))
                          * (1 # 4)) + 1);
          double (double (Math_cos (double (time + inject_Z (Z.of_nat y)))
                          * (1 # 4)) + 1)]%Q.
Proof.
  intros Hx Hy. split.
  - rewrite strings_length. split; reflexivity.
  - do 10 (destruct x as [|x];
           [do 10 (destruct y as [|y]; [split; reflexivity|]); lia|]).
    lia.
Qed.

(** X14: when the layout yields at most one glyph for a character
    and at least one for each of the strings, and the geometry generator
    eight coordinates for a glyph, [updateText] returns, the position
    buffer it uploads has at most 2400 coordinates (100 strings of at
    most 3 characters), and every local index below 64336 is uploaded as
    itself plus the vertices of the instances before it: the Uint16
    indices do not wrap around. *)
Theorem updateText_returns_unwrapped_indices
        (fuel : nat) (now : Q) (font_ : font) (geometry : Geometry) :
  (31 <= fuel)%nat ->
  (forall text : string,
      (List.length (createLayout font_ text 1 "left") <= String.length text)%nat) ->
  (forall glyphs : list glyph,
      TA.length (getPositions glyphs) = 8 * Z.of_nat (List.length glyphs)) ->
  Forall (fun text => createLayout font_ text 1 "left" <> []) strings' ->
  exists updated : Geometry,
    updateText' fuel now font_ geometry = Return updated /\
    TA.length (positionBuffer updated) <= 2400 /\
    forall (i j : nat) (text : string) (k : Z),
      nth_error strings' i = Some text ->
      nth_error (localIndices' font_ text) j = Some k ->
      k < 64336 ->
      nth_error (elements (indexBuffer updated)) (indexOffset' font_ strings' i + j)
      = Some (inject_Z (k + priorVertices' font_ strings' i)).
Proof.
  intros Hfuel Hchars Hquad Hall.
  rewrite updateText_unfolded.
  set (time := double (now / 1000)%Q).
  assert (Hfill : instances_fillable' font_ strings'
                    (fst (grid' time)) (snd (grid' time)) 0 = true).
  { rewrite <- (firstn_all strings'), strings_length.
    apply (strings_fill font_ Hchars Hquad time 100); [lia|].
    rewrite <- strings_length at 1. now rewrite firstn_all. }
  destruct (buildMergedText_returns fround font glyph createLayout getPositions
              getUvs createIndices fuel font_ strings'
              (fst (grid' time)) (snd (grid' time)) Hfuel) as [merged Hret];
    [intros E; pose proof strings_length as Hl; rewrite E in Hl; discriminate
    |exact Hfill|].
  rewrite Hret. cbn [bind]. eexists. split; [reflexivity|].
  cbn [positionBuffer indexBuffer].
  assert (Hbound : forall l : list string,
             (forall text, In text l -> In text strings') ->
             totalPositions' font_ l <= 24 * Z.of_nat (List.length l)).
  { intros l Hl. apply totalPositions_at_most. rewrite Forall_forall.
    intros text Hin. now apply strings_positions; auto. }
  destruct (buildMergedText_inv fround font glyph createLayout getPositions getUvs
              createIndices fuel font_ strings' _ _ merged Hret) as (_ & Hpos & _).
  split.
  - rewrite Hpos. specialize (Hbound strings' (fun _ H => H)).
    rewrite strings_length in Hbound. lia.
  - intros i j text k Hi Hj Hk.
    rewrite (merged_index_at fround font glyph createLayout getPositions getUvs
               createIndices fuel font_ strings' _ _ merged Hret i j text k Hi Hj).
    f_equal. f_equal. apply Z.mod_small.
    assert (Hk0 : 0 <= k).
    { apply nth_error_In in Hj.
      apply (localIndices_range font glyph createLayout createIndices) in Hj.
      apply Hj. }
    pose proof (totalPositions_bounds fround font glyph createLayout getPositions
                  getUvs createIndices font_ (firstn i strings')) as H0.
    assert (Hle : totalPositions' font_ (firstn i strings') <= 2400).
    { specialize (Hbound (firstn i strings')).
      rewrite length_firstn, strings_length in Hbound.
      assert (Hsub : forall text0, In text0 (firstn i strings') -> In text0 strings').
      { intros text0 Hin. rewrite <- (firstn_skipn i strings').
        apply in_or_app. now left. }
      specialize (Hbound Hsub). lia. }
    unfold priorVertices.
    set (T := totalPositions' font_ (firstn i strings')) in *. clearbody T.
    Z.to_euclidean_division_equations. lia.
Qed.

(** X15: when [Math.random().toString(16)] has at most two
    characters in one of the hundred calls (the random number 0 prints as
    ["0"]), the string sliced from it is empty, its instance has no
    vertex, and [updateText] throws a RangeError; the layout is taken to
    yield at most one glyph for a character and at least one for each
    string before that one, and the geometry generator eight coordinates
    for a glyph. *)
Theorem updateText_throws_on_short_random_string
        (fuel : nat) (now : Q) (font_ : font) (geometry : Geometry) (n : nat) :
  (31 <= fuel)%nat ->
  (forall text : string,
      (List.length (createLayout font_ text 1 "left") <= String.length text)%nat) ->
  (forall glyphs : list glyph,
      TA.length (getPositions glyphs) = 8 * Z.of_nat (List.length glyphs)) ->
  (n < 100)%nat ->
  Forall (fun text => createLayout font_ text 1 "left" <> []) (firstn n strings') ->
  (String.length (random_hex n) <= 2)%nat ->
  updateText' fuel now font_ geometry = Throw RangeError.
Proof.
  intros Hfuel Hchars Hquad Hn Hall Hshort.
  rewrite updateText_unfolded.
  set (time := double (now / 1000)%Q).
  pose proof (strings_nth n Hn) as Hnth.
  rewrite (substring_of_short _ 2 3 Hshort : slice_2_5 (random_hex n) = EmptyString)
    in Hnth.
  apply nth_error_split in Hnth as (before & after & Hsplit & Hlen).
  assert (Hbefore : before = firstn n strings').
  { rewrite Hsplit, <- Hlen. now rewrite firstn_app_exact. }
  rewrite Hsplit at 1.
  rewrite (instance_without_vertex_throws fround font glyph createLayout
             getPositions getUvs createIndices); [reflexivity|assumption| | |].
  - rewrite Hbefore. apply (strings_fill font_ Hchars Hquad time n); [lia|assumption].
  - pose proof (Hchars EmptyString) as Hg.
    unfold positionsLength, createTextAttributes. cbn [positions].
    rewrite Hquad. cbn [String.length] in Hg. lia.
  - left. rewrite Hlen. destruct (grid_pairs time) as [Ho _].
    destruct (pair_at _ n Ho Hn) as (p & Hp & Lp).
    unfold patternOf. rewrite Hp. cbn [TA.from elements].
    destruct p; [discriminate|]. discriminate.
Qed.

End CallerFacts.

(** ** The further properties on explicit inputs *)

Lemma fill_keeps_length_and_type_witness :
  TA.length (mkTypedArray Float32Array [10; 20; 10; 20; 10; 20; 10]%Q)
  = TA.length (TA.make Float32Array 7) /\
  constructor (mkTypedArray Float32Array [10; 20; 10; 20; 10; 20; 10]%Q)
  = constructor (TA.make Float32Array 7).
Proof.
  apply (fill_keeps_length_and_type Quads.fround 31 (TA.make Float32Array 7)
           oneOffset).
  vm_compute. reflexivity.
Defined.

Lemma fill_overwrites_the_target_witness :
  exists r : TypedArray,
    fillTypedArraySequence Quads.fround 31 (TA.make Float32Array 7) oneOffset
    = Return r /\
    (forall other : TypedArray,
        constructor other = constructor (TA.make Float32Array 7) ->
        TA.length other = TA.length (TA.make Float32Array 7) ->
        fillTypedArraySequence Quads.fround 31 other oneOffset = Return r) /\
    fillTypedArraySequence Quads.fround 31 r oneOffset = Return r.
Proof.
  apply (fill_overwrites_the_target Quads.fround 31 (TA.make Float32Array 7)
           oneOffset).
  - lia.
  - vm_compute. split; discriminate.
  - vm_compute. discriminate.
Defined.

Lemma fill_power_of_two_never_returns_witness :
  fillTypedArraySequence Quads.fround 40 (TA.make Float32Array (2 ^ 32)) oneOffset
  = OutOfFuel.
Proof.
  apply (fill_power_of_two_never_returns Quads.fround 40 1).
  - lia.
  - reflexivity.
  - rewrite make_length by lia. lia.
Defined.

Lemma merge_of_merged_parts_witness :
  mergeTypedArrays Quads.fround
    [mkTypedArray Float32Array [10; 20]%Q;
     mkTypedArray Float32Array [10; 20; 10; 20]%Q]
  = mergeTypedArrays Quads.fround ([oneOffset] ++ [oneOffset; noPattern; oneOffset]).
Proof.
  apply (merge_of_merged_parts Quads.fround Float32Array).
  - repeat constructor.
  - repeat constructor.
  - reflexivity.
  - reflexivity.
Defined.

Lemma buildMergedText_throws_only_for_a_cause_witness :
  exists (i : nat) (text : string),
    nth_error ["ab"; "c"]%string i = Some text /\
    (TA.length (Quads.getPositions (Quads.createLayout tt text 1 "left"))
     < Z.of_nat (List.length (patternOf Quads.fround [[1; 2]; [3; 4]]%Q i)) \/
     TA.length (Quads.getPositions (Quads.createLayout tt text 1 "left"))
     < Z.of_nat
         (List.length
            (patternOf Quads.fround
               [[1; 1]; [1; 2; 3; 4; 5; 6; 7; 8; 9]]%Q i))).
Proof.
  apply (proj2 (buildMergedText_throws_only_for_a_cause Quads.fround
                  Quads.font Quads.glyph Quads.createLayout Quads.getPositions
                  Quads.getUvs Quads.createIndices 31 tt [[1; 2]; [3; 4]]%Q
                  [[1; 1]; [1; 2; 3; 4; 5; 6; 7; 8; 9]]%Q)
               ["ab"; "c"]%string RangeError).
  - discriminate.
  - vm_compute. reflexivity.
Defined.

Lemma buildMergedText_throws_on_instance_without_vertex_witness :
  Quads.buildMergedText 31 tt (["ab"%string] ++ " "%string :: ["c"%string])%list
    [[1; 2]; [3; 4]; [5; 6]]%Q [[1; 1]; [1; 1]; [1; 1]]%Q
  = Throw RangeError.
Proof.
  apply (buildMergedText_throws_on_instance_without_vertex Quads.fround
           Quads.font Quads.glyph Quads.createLayout Quads.getPositions
           Quads.getUvs Quads.createIndices).
  - lia.
  - reflexivity.
  - reflexivity.
  - left. discriminate.
Defined.

Lemma buildMergedText_never_returns_without_pattern_witness :
  Quads.buildMergedText 1000 tt (["ab"%string] ++ "c"%string :: [])%list
    [[1; 2]]%Q [[1; 1]; [1; 1]]%Q
  = OutOfFuel.
Proof.
  apply (buildMergedText_never_returns_without_pattern Quads.fround
           Quads.font Quads.glyph Quads.createLayout Quads.getPositions
           Quads.getUvs Quads.createIndices).
  - reflexivity.
  - vm_compute. reflexivity.
  - left. reflexivity.
Defined.

Lemma buildMergedText_returns_only_when_patterns_fit_witness :
  exists merged : MergedText,
    Points.buildMergedText 31 tt ["abcd"; "abcdef"]%string
      [[10; 20]; [1; 2]]%Q [[2; 2]; [3; 3]]%Q
    = Return merged /\
    Z.of_nat (List.length (patternOf Points.fround [[10; 20]; [1; 2]]%Q 1)) <= 12 /\
    patternOf Points.fround [[10; 20]; [1; 2]]%Q 1 <> [].
Proof.
  assert (H : exists merged : MergedText,
             Points.buildMergedText 31 tt ["abcd"; "abcdef"]%string
               [[10; 20]; [1; 2]]%Q [[2; 2]; [3; 3]]%Q
             = Return merged)
    by (eexists; vm_compute; reflexivity).
  destruct H as [merged H]. exists merged. split; [exact H|].
  destruct (buildMergedText_returns_only_when_patterns_fit Points.fround
              Points.font Points.glyph Points.createLayout Points.getPositions
              Points.getUvs Points.createIndices 31 tt _ _ _ merged 1%nat
              "abcdef"%string H eq_refl) as [[Hle Hne] _].
  split; [exact Hle|]. apply Hne. reflexivity.
Defined.

Lemma merged_buffers_are_aligned_witness :
  exists merged : MergedText,
    Points.buildMergedText 31 tt ["abcd"; "abcdef"]%string
      [[10; 20]; [1; 2]]%Q [[2; 2]; [3; 3]]%Q
    = Return merged /\
    TA.length (mergedOffsets merged) = TA.length (mergedPositions merged) /\
    TA.length (mergedScales merged) = TA.length (mergedPositions merged).
Proof.
  assert (H : exists merged : MergedText,
             Points.buildMergedText 31 tt ["abcd"; "abcdef"]%string
               [[10; 20]; [1; 2]]%Q [[2; 2]; [3; 3]]%Q
             = Return merged)
    by (eexists; vm_compute; reflexivity).
  destruct H as [merged H]. exists merged. split; [exact H|].
  apply (merged_buffers_are_aligned Points.fround Points.font Points.glyph
           Points.createLayout Points.getPositions Points.getUvs
           Points.createIndices 31 tt _ _ _ merged H).
Defined.

Lemma merged_positions_and_uvs_in_order_witness :
  exists merged : MergedText,
    Points.buildMergedText 31 tt ["abcd"; "abcdef"]%string
      [[10; 20]; [1; 2]]%Q [[2; 2]; [3; 3]]%Q
    = Return merged /\
    mergedPositions merged = TA.make Float32Array 20.
Proof.
  assert (H : exists merged : MergedText,
             Points.buildMergedText 31 tt ["abcd"; "abcdef"]%string
               [[10; 20]; [1; 2]]%Q [[2; 2]; [3; 3]]%Q
             = Return merged)
    by (eexists; vm_compute; reflexivity).
  destruct H as [merged H]. exists merged. split; [exact H|].
  apply (merged_positions_and_uvs_in_order Points.fround Points.font Points.glyph
           Points.createLayout Points.getPositions Points.getUvs
           Points.createIndices 31 tt _ _ _ merged Float32Array Float32Array H);
    repeat constructor.
Defined.

Lemma merged_offsets_and_scales_per_instance_witness :
  exists merged : MergedText,
    Points.buildMergedText 31 tt ["abcd"; "abcdef"]%string
      [[10; 20]; [1; 2]]%Q [[2; 2]; [3; 3]]%Q
    = Return merged /\
    nth_error (elements (mergedOffsets merged)) 11 = Some 2%Q /\
    nth_error (elements (mergedScales merged)) 11 = Some 3%Q.
Proof.
  assert (H : exists merged : MergedText,
             Points.buildMergedText 31 tt ["abcd"; "abcdef"]%string
               [[10; 20]; [1; 2]]%Q [[2; 2]; [3; 3]]%Q
             = Return merged)
    by (eexists; vm_compute; reflexivity).
  destruct H as [merged H]. exists merged. split; [exact H|].
  apply (merged_offsets_and_scales_per_instance Points.fround Points.font
           Points.glyph Points.createLayout Points.getPositions Points.getUvs
           Points.createIndices 31 tt _ _ _ merged 1%nat "abcdef"%string 3 H).
  - reflexivity.
  - reflexivity.
  - vm_compute. split; [discriminate|reflexivity].
Defined.

Lemma merged_indices_of_a_batch_in_two_parts_witness :
  exists merged : MergedText,
    Points.buildMergedText 31 tt (["abcd"%string] ++ ["abcdef"%string])%list
      [[10; 20]; [1; 2]]%Q [[2; 2]; [3; 3]]%Q
    = Return merged /\
    mergedIndices merged
    = mkTypedArray Uint16Array (map inject_Z [0; 1; 2; 3; 4; 5; 6; 7; 8; 9]).
Proof.
  assert (H : exists merged : MergedText,
             Points.buildMergedText 31 tt (["abcd"%string] ++ ["abcdef"%string])%list
               [[10; 20]; [1; 2]]%Q [[2; 2]; [3; 3]]%Q
             = Return merged)
    by (eexists; vm_compute; reflexivity).
  assert (H1 : exists merged1 : MergedText,
             Points.buildMergedText 31 tt ["abcd"]%string [[10; 20]]%Q [[2; 2]]%Q
             = Return merged1 /\
             TA.length (mergedPositions merged1) = 2 * 4 /\
             elements (mergedIndices merged1) = map inject_Z [0; 1; 2; 3])
    by (eexists; split; [vm_compute; reflexivity|split; vm_compute; reflexivity]).
  assert (H2 : exists merged2 : MergedText,
             Points.buildMergedText 31 tt ["abcdef"]%string [[1; 2]]%Q [[3; 3]]%Q
             = Return merged2 /\
             elements (add_maxIndex Points.fround (mergedIndices merged2)
                                    (inject_Z 4))
             = map inject_Z [4; 5; 6; 7; 8; 9])
    by (eexists; split; [vm_compute; reflexivity|vm_compute; reflexivity]).
  destruct H as [merged H]. destruct H1 as (merged1 & H1 & L1 & I1).
  destruct H2 as (merged2 & H2 & I2).
  exists merged. split; [exact H|].
  destruct (merged_indices_of_a_batch_in_two_parts Points.fround Points.font
              Points.glyph Points.createLayout Points.getPositions Points.getUvs
              Points.createIndices 31 31 31 tt _ _ _ _ _ _ _ _ merged1 merged2
              merged 4 H1 H2 H L1) as [-> _].
  now rewrite I1, I2.
Defined.

Lemma updateText_grid_layout_witness :
  nth_error (fst (Still.grid 0)) 37 = Some [inject_Z (-160); inject_Z 128] /\
  nth_error (snd (Still.grid 0)) 37 = Some [0 * (1 # 4) + 1; 1 * (1 # 4) + 1]%Q.
Proof.
  destruct (updateText_grid_layout Still.Math_sin Still.Math_cos Still.double
              Still.random_hex 0 3 7) as (_ & Ho & Hs); [lia|lia|].
  split; [exact Ho|exact Hs].
Defined.

Lemma Quads_glyphs_of_characters (text : string) :
  (List.length (Quads.createLayout tt text 1 "left") <= String.length text)%nat.
Proof.
  unfold Quads.createLayout.
  induction text as [|c text IH]; cbn [list_ascii_of_string filter String.length];
    [cbn; lia|].
  destruct (negb (Ascii.eqb c " ")); cbn [List.length]; lia.
Qed.

Lemma Quads_quad_of_glyph (glyphs : list Quads.glyph) :
  TA.length (Quads.getPositions glyphs) = 8 * Z.of_nat (List.length glyphs).
Proof. unfold Quads.getPositions. apply make_length. lia. Qed.

Lemma updateText_returns_unwrapped_indices_witness :
  exists updated : Geometry,
    Still.updateText Still.random_hex 31 0 tt createTextMesh_geometry
    = Return updated /\
    TA.length (positionBuffer updated) <= 2400.
Proof.
  destruct (updateText_returns_unwrapped_indices Quads.fround Quads.font
              Quads.glyph Quads.createLayout Quads.getPositions Quads.getUvs
              Quads.createIndices Still.Math_sin Still.Math_cos Still.double
              Still.random_hex 31 0 tt createTextMesh_geometry)
    as (updated & H & Hlen & _).
  - lia.
  - apply Quads_glyphs_of_characters.
  - apply Quads_quad_of_glyph.
  - apply Forall_forall. intros text Hin. unfold strings in Hin.
    apply in_map_iff in Hin as (n & <- & _). discriminate.
  - exists updated. split; assumption.
Defined.

Lemma updateText_throws_on_short_random_string_witness :
  Still.updateText Still.random_hex_with_zero 31 0 tt createTextMesh_geometry
  = Throw RangeError.
Proof.
  apply (updateText_throws_on_short_random_string Quads.fround Quads.font
           Quads.glyph Quads.createLayout Quads.getPositions Quads.getUvs
           Quads.createIndices Still.Math_sin Still.Math_cos Still.double
           Still.random_hex_with_zero 31 0 tt createTextMesh_geometry 2).
  - lia.
  - apply Quads_glyphs_of_characters.
  - apply Quads_quad_of_glyph.
  - lia.
  - repeat constructor; discriminate.
  - cbn. lia.
Defined.
